(** * read_oscilloscope.py: response parsing, unit conversion and polling

    A shallow embedding of [src/read_oscilloscope.py].

    - Python [str] values are lists of 7-bit characters: pyvisa decodes
      every reply of the instrument as ASCII.
    - Python [float] values are IEEE 754 binary64 numbers, here the
      [spec_float] of the standard library at precision 53 and maximal
      exponent 1024; the operations are the correctly rounded ones.
    - Exceptions are an enumeration; a pure computation yields a [result],
      an effectful one runs in the monad [M] over a [world] that records the
      calls made to the outside (instrument, clock, console). *)

From Stdlib Require Import ZArith List Ascii String Bool Arith Lia.
From Stdlib Require Import Floats.SpecFloat.
Import ListNotations.

Set Implicit Arguments.

(** ** Strings *)

Definition str := list ascii.

Definition lit (s : string) : str := list_ascii_of_string s.

Definition comma : ascii := ","%char.
Definition letter_V : ascii := "V"%char.

(** [s.split(sep)] for a one-character separator: the list is never empty. *)
Fixpoint split (sep : ascii) (s : str) : list str :=
  match s with
  | [] => [[]]
  | c :: t =>
      if Ascii.eqb c sep then [] :: split sep t
      else match split sep t with
           | [] => [[c]]
           | x :: xs => (c :: x) :: xs
           end
  end.

(** [s.replace(old, new)] for a one-character [old]. *)
Definition replace (old : ascii) (new : str) (s : str) : str :=
  flat_map (fun c => if Ascii.eqb c old then new else [c]) s.

(** Characters that [str.strip()] removes, among the ASCII ones:
    TAB, LF, VT, FF, CR, FS, GS, RS, US and the space. *)
Definition is_py_space (c : ascii) : bool :=
  let n := nat_of_ascii c in
  ((9 <=? n) && (n <=? 13)) || ((28 <=? n) && (n <=? 32)).

Fixpoint lstrip (s : str) : str :=
  match s with
  | c :: t => if is_py_space c then lstrip t else s
  | [] => []
  end.

Definition rstrip (s : str) : str := rev (lstrip (rev s)).

Definition strip (s : str) : str := rstrip (lstrip s).

(** ** Exceptions and results *)

Inductive exn : Type :=
| VisaIOError
| KeyboardInterrupt
| IndexError
| ValueError
| ZeroDivisionError
| UnboundLocalError
| OtherError.

(** [isinstance(e, Exception)]: of the exceptions above only
    [KeyboardInterrupt] derives from [BaseException] directly. *)
Definition is_Exception (e : exn) : bool :=
  match e with
  | KeyboardInterrupt => false
  | _ => true
  end.

Inductive result (A : Type) : Type :=
| Ok (a : A)
| Raise (e : exn).

Arguments Ok {A} a.
Arguments Raise {A} e.

Definition rbind {A B} (r : result A) (k : A -> result B) : result B :=
  match r with
  | Ok a => k a
  | Raise e => Raise e
  end.

Declare Scope result_scope.
Delimit Scope result_scope with result.
Notation "x <- r ;; k" := (rbind r (fun x => k))
  (at level 61, r at next level, right associativity) : result_scope.

(** [l[i]] on a list. *)
Definition getitem {A} (l : list A) (i : nat) : result A :=
  match nth_error l i with
  | Some x => Ok x
  | None => Raise IndexError
  end.

(** ** Floats *)

Definition prec : Z := 53.
Definition emax : Z := 1024.

Definition float := spec_float.

Definition float_mul (x y : float) : float := SFmul prec emax x y.

Definition float_is_zero (x : float) : bool :=
  match x with
  | S754_zero _ => true
  | _ => false
  end.

(** [x / y] on floats: a zero divisor raises. *)
Definition float_truediv (x y : float) : result float :=
  if float_is_zero y then Raise ZeroDivisionError
  else Ok (SFdiv prec emax x y).

(** Conversion of a Python [int] operand in mixed arithmetic. *)
Definition float_of_int (z : Z) : float := binary_normalize prec emax z 0 false.

(** The correctly rounded binary64 value of [(-1)^neg * m * 10^e]. *)
Definition round_decimal (neg : bool) (m e : Z) : float :=
  match m with
  | Zpos p =>
      if (0 <=? e)%Z then binary_round prec emax neg (Z.to_pos (Zpos p * 10 ^ e)) 0
      else
        let '(q, e', l) := SFdiv_core_binary prec emax (Zpos p) 0 (10 ^ (- e)) 0 in
        binary_round_aux prec emax neg q e' l
  | _ => S754_zero neg
  end.

(** *** [float(s)] on ASCII text

    The grammar is CPython's: optional white space, an optional sign, then
    either decimal digits with an optional point and an optional exponent,
    or one of [inf], [infinity], [nan] in any letter case; underscores may
    separate digits. *)

Definition is_digit (c : ascii) : bool :=
  let n := nat_of_ascii c in (48 <=? n) && (n <=? 57).

Definition digit_val (c : ascii) : Z := Z.of_nat (nat_of_ascii c - 48).

(** The white space that [float] skips on ASCII text (C's [isspace]). *)
Definition is_c_space (c : ascii) : bool :=
  let n := nat_of_ascii c in
  ((9 <=? n) && (n <=? 13)) || (n =? 32).

Definition underscore : ascii := "_"%char.

(** Underscores are dropped; each must stand between two digits. *)
Fixpoint drop_underscores (prev : ascii) (s : str) : option str :=
  match s with
  | [] => if Ascii.eqb prev underscore then None else Some []
  | c :: t =>
      if Ascii.eqb c underscore then
        if is_digit prev then drop_underscores c t else None
      else if Ascii.eqb prev underscore && negb (is_digit c) then None
      else option_map (cons c) (drop_underscores c t)
  end.

Fixpoint span_digits (s : str) : str * str :=
  match s with
  | c :: t =>
      if is_digit c then let '(ds, rest) := span_digits t in (c :: ds, rest)
      else ([], s)
  | [] => ([], [])
  end.

Definition digits_value (ds : str) : Z :=
  fold_left (fun acc c => (10 * acc + digit_val c)%Z) ds 0%Z.

Definition parse_sign (s : str) : bool * str :=
  match s with
  | "-"%char :: t => (true, t)
  | "+"%char :: t => (false, t)
  | _ => (false, s)
  end.

Definition is_e (c : ascii) : bool :=
  Ascii.eqb c "e"%char || Ascii.eqb c "E"%char.

(** An exponent without digits is not part of the number. *)
Definition parse_exponent (s : str) : Z * str :=
  match s with
  | c :: t =>
      if is_e c then
        let '(neg, t1) := parse_sign t in
        let '(ds, rest) := span_digits t1 in
        match ds with
        | [] => (0%Z, s)
        | _ => ((if neg then - digits_value ds else digits_value ds)%Z, rest)
        end
      else (0%Z, s)
  | [] => (0%Z, s)
  end.

Definition is_dot (c : ascii) : bool := Ascii.eqb c "."%char.

(** The longest decimal prefix of [s], with what follows it. *)
Definition parse_decimal (s : str) : option (float * str) :=
  let '(neg, s1) := parse_sign s in
  let '(ip, s2) := span_digits s1 in
  let '(fp, s3) :=
    match s2 with
    | c :: t => if is_dot c then span_digits t else ([], s2)
    | [] => ([], s2)
    end in
  match ip ++ fp with
  | [] => None
  | ds =>
      let '(e, s4) := parse_exponent s3 in
      Some (round_decimal neg (digits_value ds) (e - Z.of_nat (List.length fp)), s4)
  end.

(** Lower-casing of an ASCII letter. *)
Definition to_lower (c : ascii) : ascii :=
  let n := nat_of_ascii c in
  if (65 <=? n) && (n <=? 90) then ascii_of_nat (n + 32) else c.

(** [word] is in lower case; the rest of [s] after it, if [s] starts
    with it in any letter case. *)
Fixpoint match_word (word s : str) : option str :=
  match word, s with
  | [], _ => Some s
  | w :: word', c :: t =>
      if Ascii.eqb (to_lower c) w then match_word word' t else None
  | _ :: _, [] => None
  end.

Definition parse_inf_or_nan (s : str) : option (float * str) :=
  let '(neg, s1) := parse_sign s in
  match match_word (lit "inf") s1 with
  | Some r =>
      match match_word (lit "inity") r with
      | Some r' => Some (S754_infinity neg, r')
      | None => Some (S754_infinity neg, r)
      end
  | None =>
      match match_word (lit "nan") s1 with
      | Some r => Some (S754_nan, r)
      | None => None
      end
  end.

Definition strtod (s : str) : option (float * str) :=
  match parse_decimal s with
  | Some r => Some r
  | None => parse_inf_or_nan s
  end.

Fixpoint skip_c_space (s : str) : str :=
  match s with
  | c :: t => if is_c_space c then skip_c_space t else s
  | [] => []
  end.

Definition float_from_string_inner (s : str) : option float :=
  match strtod (skip_c_space s) with
  | Some (x, rest) => if forallb is_c_space rest then Some x else None
  | None => None
  end.

(** [float(s)]: a text that is not a number raises [ValueError]; a value
    too large for a double is an infinity, not an error. *)
Definition python_float (s : str) : result float :=
  let cleaned :=
    if existsb (Ascii.eqb underscore) s then drop_underscores zero s
    else Some s in
  match cleaned with
  | Some s' =>
      match float_from_string_inner s' with
      | Some x => Ok x
      | None => Raise ValueError
      end
  | None => Raise ValueError
  end.

(** A float literal of the source denotes the value [float] gives to its
    text. *)
Definition float_literal (s : string) : float :=
  match python_float (lit s) with
  | Ok x => x
  | Raise _ => S754_nan
  end.

(** ** The parsing step

    [float(resp.split(",")[1].replace("V", ""))], the expression of
    [calculate_resistance] and of the two polling loops. *)
Definition QueryValue (resp : str) : result float :=
  (seg <- getitem (split comma resp) 1 ;;
   python_float (replace letter_V [] seg))%result.

(** The literal [1000] of [... * 1000]. *)
Definition thousand : float := float_of_int 1000.

Definition toMillivolts (v : float) : float := float_mul v thousand.

(** [(mean_c1_mv / mean_c2_mv) * R]. *)
Definition ComputeResistance (x y r : float) : result float :=
  (q <- float_truediv x y ;; Ok (float_mul q r))%result.

(** ** The outside world

    Every call that leaves the program (the resource manager, the
    instrument session, [time.sleep], the printing of a line that is not
    ASCII) is answered by the [script] of the world: the [n]-th such call
    gets [script n], a reply text or an exception.  The calls and the
    printed lines are recorded in order. *)

Inductive reply : Type :=
| Reply (s : str)
| Fails (e : exn).

(** The lines the program prints, with the values that are formatted. *)
Inductive message : Type :=
| MsgResistance (r : float)
| MsgMean (mean_mv : float)
| MsgReading (rms_c1_mv mean_c1_mv rms_c2_mv mean_c2_mv r_sensor : float)
| MsgUnexpected (rms_c1 mean_c1 rms_c2 mean_c2 : str)
| MsgStopped
| MsgVisa (e : exn)
| MsgGeneral (e : exn).

Inductive event : Type :=
| EvResourceManager
| EvOpen (address : str)
| EvSetTimeout (ms : nat)
| EvWrite (cmd : str)
| EvQuery (cmd : str)
| EvSleep (ms : nat)
| EvClose
| EvPrint (m : message).

Record world : Type := mkWorld {
  script : nat -> reply;
  clock : nat;
  trace : list event
}.

(** How a run ends: with a value, with an exception, or still inside a
    [while True] loop when the iteration budget is spent. *)
Inductive outcome (A : Type) : Type :=
| Returns (a : A)
| Raises (e : exn)
| Running.

Arguments Returns {A} a.
Arguments Raises {A} e.
Arguments Running {A}.

Definition M (A : Type) : Type := world -> outcome A * world.

Definition ret {A} (a : A) : M A := fun w => (Returns a, w).

Definition raise {A} (e : exn) : M A := fun w => (Raises e, w).

Definition bind {A B} (m : M A) (k : A -> M B) : M B :=
  fun w =>
    match m w with
    | (Returns a, w') => k a w'
    | (Raises e, w') => (Raises e, w')
    | (Running, w') => (Running, w')
    end.

Declare Scope io_scope.
Delimit Scope io_scope with io.
Notation "x <- m ;; k" := (bind m (fun x => k))
  (at level 61, m at next level, right associativity) : io_scope.
Notation "m ;; k" := (bind m (fun _ => k))
  (at level 61, right associativity) : io_scope.

Definition lift {A} (r : result A) : M A :=
  match r with
  | Ok a => ret a
  | Raise e => raise e
  end.

(** [try: m  except ...: h]; [h e] is [None] when no clause matches [e]. *)
Definition try_except {A} (m : M A) (h : exn -> option (M A)) : M A :=
  fun w =>
    match m w with
    | (Raises e, w') =>
        match h e with
        | Some handler => handler w'
        | None => (Raises e, w')
        end
    | r => r
    end.

(** [try: m  finally: fin]: an exception of [fin] replaces the outcome. *)
Definition try_finally {A} (m : M A) (fin : M unit) : M A :=
  fun w =>
    match m w with
    | (Running, w') => (Running, w')
    | (o, w') =>
        match fin w' with
        | (Returns _, w'') => (o, w'')
        | (Raises e, w'') => (Raises e, w'')
        | (Running, w'') => (Running, w'')
        end
    end.

(** Runs [m] and hands back how it ended, for a local variable that is
    bound only if the call returned. *)
Definition attempt {A} (m : M A) : M (result A) :=
  fun w =>
    match m w with
    | (Returns a, w') => (Returns (Ok a), w')
    | (Raises e, w') => (Returns (Raise e), w')
    | (Running, w') => (Running, w')
    end.

Definition record (ev : event) (w : world) : world :=
  mkWorld (script w) (clock w) (trace w ++ [ev]).

Definition tick (ev : event) (w : world) : world :=
  mkWorld (script w) (S (clock w)) (trace w ++ [ev]).

(** A call to the outside. *)
Definition call (ev : event) : M str :=
  fun w =>
    match script w (clock w) with
    | Reply s => (Returns s, tick ev w)
    | Fails e => (Raises e, tick ev w)
    end.

(** [print] of a line of ASCII text. *)
Definition print (m : message) : M unit :=
  fun w => (Returns tt, record (EvPrint m) w).

(** [print] of a line that holds the ohm sign (lines 31 and 143): the
    standard output raises when its encoding lacks the character, so this
    is a call to the outside, answered by the script like the others. *)
Definition print_unicode (m : message) : M unit :=
  (call (EvPrint m) ;; ret tt)%io.

Definition inst_write (cmd : string) : M unit :=
  (call (EvWrite (lit cmd)) ;; ret tt)%io.

Definition inst_query (cmd : string) : M str := call (EvQuery (lit cmd)).

Definition sleep (ms : nat) : M unit := (call (EvSleep ms) ;; ret tt)%io.

Definition inst_close : M unit := (call EvClose ;; ret tt)%io.

(** [while True: body], for at most [fuel] iterations. *)
Fixpoint while_true (fuel : nat) (body : M unit) : M unit :=
  match fuel with
  | O => fun w => (Running, w)
  | S fuel' => (body ;; while_true fuel' body)%io
  end.

(** The clauses [except pyvisa.VisaIOError] and [except Exception] that
    end every function of the file. *)
Definition report {A} (a : A) (e : exn) : option (M A) :=
  match e with
  | VisaIOError => Some (print (MsgVisa e) ;; ret a)%io
  | KeyboardInterrupt => None
  | _ => Some (print (MsgGeneral e) ;; ret a)%io
  end.

(** The same after an [except KeyboardInterrupt] clause. *)
Definition report_or_stop (e : exn) : option (M unit) :=
  match e with
  | KeyboardInterrupt => Some (print MsgStopped)
  | _ => report tt e
  end.

(** ** The functions of the program *)

Definition float_eq_zero (x : float) : bool :=
  SFeqb x (S754_zero false).

(** [current] is taken as a float; [None] is the value of a call that
    falls off the end of the function. *)
Definition calculate_resistance (current : float) : M (option float) :=
  try_except
    ((if float_eq_zero current then raise ValueError else ret tt) ;;
     inst_write "PACU MEAN,C1" ;;
     sleep 1000 ;;
     reply <- inst_query "C1:PAVA? MEAN" ;;
     let voltage_mean := strip reply in
     voltage_value <-
       try_except (lift (QueryValue voltage_mean))
         (fun e => match e with
                   | IndexError | ValueError => Some (raise ValueError)
                   | _ => None
                   end) ;;
     resistance <- lift (float_truediv voltage_value current) ;;
     print_unicode (MsgResistance resistance) ;;
     ret (Some resistance))%io
    (report None).

Definition dc_average_body : M unit :=
  (reply <- inst_query "C1:PAVA? MEAN" ;;
   let voltage_mean := strip reply in
   voltage_mean_mv <-
     lift (v <- QueryValue voltage_mean ;; Ok (toMillivolts v))%result ;;
   print (MsgMean voltage_mean_mv) ;;
   sleep 100)%io.

Definition continuous_dc_average (fuel : nat) : M unit :=
  try_except
    (inst_write "PACU MEAN,C1" ;;
     while_true fuel dc_average_body)%io
    report_or_stop.

(** The [try] block of the loop of [continuous_measurement]. *)
Definition extract_values (R : float) (rms_c1 mean_c1 rms_c2 mean_c2 : str)
  : result (float * float * float * float * float) :=
  (rms_c1_mv <- (v <- QueryValue rms_c1 ;; Ok (toMillivolts v)) ;;
   mean_c1_mv <- (v <- QueryValue mean_c1 ;; Ok (toMillivolts v)) ;;
   rms_c2_mv <- (v <- QueryValue rms_c2 ;; Ok (toMillivolts v)) ;;
   mean_c2_mv <- (v <- QueryValue mean_c2 ;; Ok (toMillivolts v)) ;;
   r_sensor <- ComputeResistance mean_c1_mv mean_c2_mv R ;;
   Ok (rms_c1_mv, mean_c1_mv, rms_c2_mv, mean_c2_mv, r_sensor))%result.

(** Steps 3 and 4 of an iteration, on the four stripped replies;
    [continue] leaves the iteration after the report. *)
Definition report_values (R : float) (rms_c1 mean_c1 rms_c2 mean_c2 : str)
  : M unit :=
  (values <-
     try_except
       (v <- lift (extract_values R rms_c1 mean_c1 rms_c2 mean_c2) ;;
        ret (Some v))
       (fun e => match e with
                 | IndexError | ValueError =>
                     Some (print (MsgUnexpected rms_c1 mean_c1 rms_c2 mean_c2) ;;
                           ret None)
                 | _ => None
                 end) ;;
   match values with
   | None => ret tt
   | Some (rms_c1_mv, mean_c1_mv, rms_c2_mv, mean_c2_mv, r_sensor) =>
       print_unicode
         (MsgReading rms_c1_mv mean_c1_mv rms_c2_mv mean_c2_mv r_sensor) ;;
       sleep 1000
   end)%io.

(** One iteration of the loop of [continuous_measurement]. *)
Definition measurement_body (R : float) : M unit :=
  (r1 <- inst_query "C1:PAVA? RMS" ;;
   r2 <- inst_query "C1:PAVA? MEAN" ;;
   r3 <- inst_query "C2:PAVA? RMS" ;;
   r4 <- inst_query "C2:PAVA? MEAN" ;;
   report_values R (strip r1) (strip r2) (strip r3) (strip r4))%io.

(** [R = 10.0]. *)
Definition R_ref : float := float_literal "10.0".

Definition continuous_measurement (fuel : nat) : M unit :=
  try_except
    (inst_write "PACU RMS,C1" ;;
     inst_write "PACU MEAN,C1" ;;
     inst_write "PACU RMS,C2" ;;
     inst_write "PACU MEAN,C2" ;;
     while_true fuel (measurement_body R_ref))%io
    report_or_stop.

Definition scope_address : str := lit "USB0::0x3121::0x2100::641G22175::INSTR".

(** [main]: the variable [inst] is bound only if [open_resource] returned,
    and the [finally] clause reads it. *)
Definition main (fuel : nat) : M unit :=
  (call EvResourceManager ;;
   opened <- attempt (call (EvOpen scope_address)) ;;
   let inst_bound := match opened with Ok _ => true | Raise _ => false end in
   try_finally
     (try_except
        (lift opened ;;
         call (EvSetTimeout 5000) ;;
         continuous_measurement fuel)
        (report tt))
     (if inst_bound then inst_close else raise UnboundLocalError))%io.

(** ** The specification's reading of a response

    The text after the first separator, up to the next one, and the way the
    specification describes the parsed measurement; both are stated
    independently of [split] and [replace]. *)

Fixpoint before_sep (sep : ascii) (s : str) : str :=
  match s with
  | [] => []
  | c :: t => if Ascii.eqb c sep then [] else c :: before_sep sep t
  end.

Fixpoint after_sep (sep : ascii) (s : str) : option str :=
  match s with
  | [] => None
  | c :: t => if Ascii.eqb c sep then Some t else after_sep sep t
  end.

Definition is_letter (c : ascii) : bool :=
  let n := nat_of_ascii c in
  ((65 <=? n) && (n <=? 90)) || ((97 <=? n) && (n <=? 122)).

(** One unit letter, if the text ends with a letter. *)
Definition strip_trailing_letter (s : str) : str :=
  match rev s with
  | c :: t => if is_letter c then rev t else s
  | [] => s
  end.

(** The parsed measurement in the words of the specification: the entire
    text after the first separator, one trailing unit letter stripped. *)
Definition spec_parsed_measurement (resp : str) : result float :=
  match after_sep comma resp with
  | None => Raise IndexError
  | Some t => python_float (strip_trailing_letter t)
  end.

(** The two exceptions that the program treats as a parse failure. *)
Definition is_ParseError (e : exn) : bool :=
  match e with
  | IndexError | ValueError => true
  | _ => false
  end.

(** Characters that occur in a text accepted by [float]. *)
Definition float_char (c : ascii) : bool :=
  is_c_space c || is_digit c || Ascii.eqb c underscore
  || Ascii.eqb c "+"%char || Ascii.eqb c "-"%char || is_dot c || is_e c
  || existsb (Ascii.eqb (to_lower c)) (lit "infinityna").

(** ** Observations on runs *)

(** A world that starts at call 0 with an empty trace and answers the
    calls from a list, then with [default]. *)
Definition scripted (l : list reply) (default : reply) : world :=
  mkWorld (fun n => nth n l default) 0 [].

Definition is_close (ev : event) : bool :=
  match ev with
  | EvClose => true
  | _ => false
  end.

(** The number of times the session was closed. *)
Definition closes (w : world) : nat :=
  List.length (filter is_close (trace w)).

Definition ok : reply := Reply [].

(** The line printed for an exception caught by the closing clauses. *)
Definition error_message (e : exn) : message :=
  match e with
  | VisaIOError => MsgVisa e
  | _ => MsgGeneral e
  end.

(** The world after the four queries of an iteration. *)
Definition after_queries (w : world) : world :=
  tick (EvQuery (lit "C2:PAVA? MEAN"))
    (tick (EvQuery (lit "C2:PAVA? RMS"))
       (tick (EvQuery (lit "C1:PAVA? MEAN"))
          (tick (EvQuery (lit "C1:PAVA? RMS")) w))).

(** A computation that never closes the session. *)
Definition keeps_closes {A} (m : M A) : Prop :=
  forall w, closes (snd (m w)) = closes w.

(** *** Scenarios *)

Definition good_replies : list reply :=
  [Reply (lit "C1,0.5V"); Reply (lit "C1,0.5V");
   Reply (lit "C2,0.25V"); Reply (lit "C2,0.25V")].

(** The first reply of the first iteration is malformed; the second
    iteration gets four good replies. *)
Definition badval_world : world :=
  scripted ([Reply (lit "C1,BADVAL"); Reply (lit "C1,0.5V");
             Reply (lit "C2,0.25V"); Reply (lit "C2,0.25V")]
            ++ good_replies) ok.

(** The four set-up commands succeed and channel 2 reads zero volts. *)
Definition zero_volt_world : world :=
  scripted [ok; ok; ok; ok;
            Reply (lit "C1,0.5V"); Reply (lit "C1,0.5V");
            Reply (lit "C2,0.0V"); Reply (lit "C2,0.0V")] ok.

(** The resource manager is created, [open_resource] fails. *)
Definition open_failure_world : world :=
  scripted [ok; Fails VisaIOError] ok.

(** Set-up succeeds, one iteration completes (four replies, the printed
    line, the pause), then a query times out. *)
Definition timeout_world : world :=
  scripted ([ok; ok; ok; ok; ok; ok; ok] ++ good_replies
            ++ [ok; ok; Fails VisaIOError]) ok.

(** The user interrupts the pause of [calculate_resistance]. *)
Definition interrupted_world : world :=
  scripted [ok; Fails KeyboardInterrupt] ok.

(** *** Further observations *)

(** The line printed by the clauses that end a polling function. *)
Definition stop_message (e : exn) : message :=
  match e with
  | KeyboardInterrupt => MsgStopped
  | _ => error_message e
  end.

Definition is_sleep (ev : event) : bool :=
  match ev with
  | EvSleep _ => true
  | _ => false
  end.

Definition is_query (ev : event) : bool :=
  match ev with
  | EvQuery _ => true
  | _ => false
  end.

Definition is_print (ev : event) : bool :=
  match ev with
  | EvPrint _ => true
  | _ => false
  end.

(** The number of recorded events of one kind. *)
Definition count (p : event -> bool) (w : world) : nat :=
  List.length (filter p (trace w)).

(** Every call is answered, with a text that the parsing step rejects. *)
Definition always_malformed (w : world) : Prop :=
  forall n, exists r e, script w n = Reply r /\ QueryValue (strip r) = Raise e.

(** Every call is answered, the printing of a reading included, and no
    answer parses to a voltage whose value in millivolts is a zero. *)
Definition answers_without_zero (w : world) : Prop :=
  forall n, exists r,
    script w n = Reply r /\
    forall v, QueryValue (strip r) = Ok v -> float_is_zero (toMillivolts v) = false.

(** An instrument that answers every call with the same text. *)
Definition constant_world (r : string) : world := scripted [] (Reply (lit r)).

(** The [try] block of [continuous_measurement]: the four set-up commands
    and the loop. *)
Definition measurement_block (fuel : nat) : M unit :=
  (inst_write "PACU RMS,C1" ;;
   inst_write "PACU MEAN,C1" ;;
   inst_write "PACU RMS,C2" ;;
   inst_write "PACU MEAN,C2" ;;
   while_true fuel (measurement_body R_ref))%io.

(** A computation that leaves the script alone and raises nothing but the
    exception of a call that failed or a [ZeroDivisionError]. *)
Definition raises_from_calls {A} (m : M A) : Prop :=
  forall w,
    script (snd (m w)) = script w /\
    forall e, fst (m w) = Raises e ->
              e = ZeroDivisionError \/ exists n, script w n = Fails e.

(** * Facts about strings *)

Section StringFacts.

Variable sep : ascii.

Lemma split_cons_sep (t : str) : split sep (sep :: t) = [] :: split sep t.
Proof. simpl. now rewrite Ascii.eqb_refl. Qed.

Lemma split_shape (s : str) :
  split sep s =
  before_sep sep s ::
    match after_sep sep s with
    | None => []
    | Some t => split sep t
    end.
Proof.
  induction s as [|c t IH]; simpl; [reflexivity|].
  destruct (Ascii.eqb c sep); [reflexivity|].
  now rewrite IH.
Qed.

Lemma before_sep_notin (s : str) : ~ In sep s -> before_sep sep s = s.
Proof.
  induction s as [|c t IH]; simpl; intros H; [reflexivity|].
  destruct (Ascii.eqb_spec c sep) as [->|_]; [exfalso; auto|].
  f_equal. apply IH. tauto.
Qed.

Lemma after_sep_notin (s : str) : ~ In sep s -> after_sep sep s = None.
Proof.
  induction s as [|c t IH]; simpl; intros H; [reflexivity|].
  destruct (Ascii.eqb_spec c sep) as [->|_]; [exfalso; auto|].
  apply IH. tauto.
Qed.

Lemma after_sep_app (a b : str) :
  ~ In sep a -> after_sep sep (a ++ sep :: b) = Some b.
Proof.
  induction a as [|c t IH]; simpl; intros H.
  - now rewrite Ascii.eqb_refl.
  - destruct (Ascii.eqb_spec c sep) as [->|_]; [exfalso; auto|].
    apply IH. tauto.
Qed.

Lemma after_sep_some (s t : str) :
  after_sep sep s = Some t -> s = before_sep sep s ++ sep :: t.
Proof.
  induction s as [|c u IH]; simpl; [discriminate|].
  destruct (Ascii.eqb_spec c sep) as [->|_]; intros H.
  - now inversion H.
  - simpl. f_equal. now apply IH.
Qed.

Lemma after_sep_none (s : str) : after_sep sep s = None -> ~ In sep s.
Proof.
  induction s as [|c u IH]; simpl; [tauto|].
  destruct (Ascii.eqb_spec c sep) as [->|Hne]; [discriminate|].
  intros H [Hc|Hin]; [congruence|]. now apply IH.
Qed.

Lemma split_notin (s : str) : ~ In sep s -> split sep s = [s].
Proof.
  intros H. rewrite split_shape.
  now rewrite before_sep_notin, after_sep_notin.
Qed.

(** The item of index 1 of a split is the text between the first and the
    second separator. *)
Lemma getitem_split_1 (s : str) :
  getitem (split sep s) 1 =
  match after_sep sep s with
  | None => Raise IndexError
  | Some t => Ok (before_sep sep t)
  end.
Proof.
  rewrite split_shape. destruct (after_sep sep s) as [t|]; [|reflexivity].
  now rewrite split_shape.
Qed.

End StringFacts.

Lemma replace_remove_notin (old : ascii) (s : str) :
  ~ In old s -> replace old [] s = s.
Proof.
  induction s as [|c t IH]; simpl; intros H; [reflexivity|].
  destruct (Ascii.eqb_spec c old) as [->|_]; [exfalso; auto|].
  simpl. f_equal. apply IH. tauto.
Qed.

Lemma replace_app (old : ascii) (new a b : str) :
  replace old new (a ++ b) = replace old new a ++ replace old new b.
Proof. unfold replace. apply flat_map_app. Qed.

Lemma replace_removes (old : ascii) (s : str) : ~ In old (replace old [] s).
Proof.
  induction s as [|c t IH]; simpl; [tauto|].
  destruct (Ascii.eqb_spec c old) as [->|Hne]; simpl; [exact IH|].
  intros [H|H]; [congruence|]. now apply IH.
Qed.

Lemma lstrip_app_nonspace (a b : str) (c : ascii) :
  is_py_space c = false -> lstrip (a ++ c :: b) = lstrip a ++ c :: b.
Proof.
  intros Hc. induction a as [|x t IH]; simpl.
  - now rewrite Hc.
  - destruct (is_py_space x); [exact IH | reflexivity].
Qed.

Lemma lstrip_incl (s : str) (c : ascii) : In c (lstrip s) -> In c s.
Proof.
  induction s as [|x t IH]; simpl; [tauto|].
  destruct (is_py_space x); simpl; tauto.
Qed.

Lemma rstrip_snoc_nonspace (s : str) (c : ascii) :
  is_py_space c = false -> rstrip (s ++ [c]) = s ++ [c].
Proof.
  intros Hc. unfold rstrip. rewrite rev_app_distr. simpl. rewrite Hc.
  simpl. now rewrite rev_involutive.
Qed.

(** Stripping a response of the form [ch,body] whose last character is
    not white space only shortens the channel prefix. *)
Lemma strip_response (ch body : str) (u : ascii) :
  is_py_space u = false ->
  strip (ch ++ comma :: body ++ [u]) = lstrip ch ++ comma :: body ++ [u].
Proof.
  intros Hu. unfold strip.
  rewrite lstrip_app_nonspace by reflexivity.
  change (lstrip ch ++ comma :: body ++ [u])
    with (lstrip ch ++ (comma :: body) ++ [u]).
  rewrite app_assoc. now apply rstrip_snoc_nonspace.
Qed.

(** * Facts about [float]

    Every character of a text that [float] accepts is a [float_char]; in
    particular such a text holds neither a comma nor a [V]. *)

Section FloatText.

Lemma float_char_space c : is_c_space c = true -> float_char c = true.
Proof. intros H. unfold float_char. now rewrite H. Qed.

Lemma float_char_digit c : is_digit c = true -> float_char c = true.
Proof. intros H. unfold float_char. rewrite H. now rewrite orb_true_r. Qed.

Lemma float_char_underscore c :
  Ascii.eqb c underscore = true -> float_char c = true.
Proof. intros H. unfold float_char. rewrite H. now rewrite !orb_true_r. Qed.

Lemma float_char_dot c : is_dot c = true -> float_char c = true.
Proof. intros H. unfold float_char. rewrite H. now rewrite !orb_true_r. Qed.

Lemma float_char_e c : is_e c = true -> float_char c = true.
Proof. intros H. unfold float_char. rewrite H. now rewrite !orb_true_r. Qed.

Lemma float_char_word c :
  existsb (Ascii.eqb (to_lower c)) (lit "infinityna") = true ->
  float_char c = true.
Proof. intros H. unfold float_char. rewrite H. now rewrite !orb_true_r. Qed.

Lemma skip_c_space_chars (s : str) :
  forallb float_char (skip_c_space s) = true -> forallb float_char s = true.
Proof.
  induction s as [|c t IH]; simpl; [auto|].
  destruct (is_c_space c) eqn:Hc; [|auto].
  intros H. rewrite (float_char_space _ Hc). simpl. auto.
Qed.

Lemma forallb_space_chars (s : str) :
  forallb is_c_space s = true -> forallb float_char s = true.
Proof.
  induction s as [|c t IH]; simpl; [auto|].
  rewrite andb_true_iff. intros [Hc Ht].
  now rewrite (float_char_space _ Hc), IH.
Qed.

Lemma parse_sign_chars (s rest : str) (neg : bool) :
  parse_sign s = (neg, rest) ->
  forallb float_char rest = true -> forallb float_char s = true.
Proof.
  unfold parse_sign. intros H Hr.
  destruct s as [|c t]; [now inversion H|].
  destruct (Ascii.eqb_spec c "-"%char) as [->|Hm].
  - inversion H; subst. simpl. exact Hr.
  - destruct (Ascii.eqb_spec c "+"%char) as [->|Hp].
    + inversion H; subst. simpl. exact Hr.
    + assert (rest = c :: t) as ->; [|exact Hr].
      destruct c as [[] [] [] [] [] [] [] []]; try (now inversion H);
        congruence.
Qed.

Lemma span_digits_chars (s ds rest : str) :
  span_digits s = (ds, rest) ->
  forallb float_char rest = true -> forallb float_char s = true.
Proof.
  revert ds rest. induction s as [|c t IH]; simpl; intros ds rest H Hr.
  - reflexivity.
  - destruct (is_digit c) eqn:Hc.
    + destruct (span_digits t) as [ds' rest'] eqn:Ht. inversion H; subst.
      rewrite (float_char_digit _ Hc). simpl. eapply IH; eauto.
    + inversion H; subst. exact Hr.
Qed.

Lemma parse_exponent_chars (s rest : str) (e : Z) :
  parse_exponent s = (e, rest) ->
  forallb float_char rest = true -> forallb float_char s = true.
Proof.
  unfold parse_exponent. intros H Hr.
  destruct s as [|c t]; [now inversion H|].
  destruct (is_e c) eqn:Hc; [|now inversion H; subst].
  destruct (parse_sign t) as [neg t1] eqn:Hs.
  destruct (span_digits t1) as [ds rest'] eqn:Hd.
  destruct ds as [|d ds]; inversion H; subst; [exact Hr|].
  simpl. rewrite (float_char_e _ Hc). simpl.
  eapply parse_sign_chars; eauto.
  eapply span_digits_chars; eauto.
Qed.

Lemma parse_decimal_chars (s rest : str) (x : float) :
  parse_decimal s = Some (x, rest) ->
  forallb float_char rest = true -> forallb float_char s = true.
Proof.
  unfold parse_decimal. intros H Hr.
  destruct (parse_sign s) as [neg s1] eqn:Hs.
  destruct (span_digits s1) as [ip s2] eqn:Hi.
  eapply parse_sign_chars; eauto.
  eapply span_digits_chars; eauto.
  destruct s2 as [|c t].
  - destruct (ip ++ []); [discriminate|].
    destruct (parse_exponent []) as [e s4] eqn:He.
    inversion H; subst. eapply parse_exponent_chars; eauto.
  - destruct (is_dot c) eqn:Hc.
    + destruct (span_digits t) as [fp s3] eqn:Hf.
      destruct (ip ++ fp); [discriminate|].
      destruct (parse_exponent s3) as [e s4] eqn:He.
      inversion H; subst. simpl. rewrite (float_char_dot _ Hc). simpl.
      eapply span_digits_chars; eauto.
      eapply parse_exponent_chars; eauto.
    + destruct (ip ++ []); [discriminate|].
      destruct (parse_exponent (c :: t)) as [e s4] eqn:He.
      inversion H; subst. eapply parse_exponent_chars; eauto.
Qed.

Lemma match_word_chars (word s rest : str) :
  (forall w, In w word -> In w (lit "infinityna")) ->
  match_word word s = Some rest ->
  forallb float_char rest = true -> forallb float_char s = true.
Proof.
  revert s. induction word as [|w word IH]; simpl; intros s Hw H Hr.
  - now inversion H; subst.
  - destruct s as [|c t]; [discriminate|].
    destruct (Ascii.eqb_spec (to_lower c) w) as [Hc|_]; [|discriminate].
    simpl. rewrite andb_true_iff. split.
    + apply float_char_word. apply existsb_exists. exists w. split.
      * apply Hw. now left.
      * rewrite Hc. apply Ascii.eqb_refl.
    + apply IH; auto. intros w' Hw'. apply Hw. now right.
Qed.

Lemma parse_inf_or_nan_chars (s rest : str) (x : float) :
  parse_inf_or_nan s = Some (x, rest) ->
  forallb float_char rest = true -> forallb float_char s = true.
Proof.
  unfold parse_inf_or_nan. intros H Hr.
  assert (Hinf_sub : forall w, In w (lit "inf") -> In w (lit "infinityna"))
    by (simpl; tauto).
  assert (Hinity_sub : forall w, In w (lit "inity") -> In w (lit "infinityna"))
    by (simpl; tauto).
  assert (Hnan_sub : forall w, In w (lit "nan") -> In w (lit "infinityna"))
    by (simpl; tauto).
  destruct (parse_sign s) as [neg s1] eqn:Hs.
  apply (parse_sign_chars _ Hs).
  destruct (match_word (lit "inf") s1) as [r|] eqn:Hinf.
  - apply (match_word_chars _ _ Hinf_sub Hinf).
    destruct (match_word (lit "inity") r) as [r'|] eqn:Hinity.
    + inversion H; subst. exact (match_word_chars _ _ Hinity_sub Hinity Hr).
    + now inversion H; subst.
  - destruct (match_word (lit "nan") s1) as [r|] eqn:Hnan; [|discriminate].
    inversion H; subst. exact (match_word_chars _ _ Hnan_sub Hnan Hr).
Qed.

Lemma float_from_string_inner_chars (s : str) (x : float) :
  float_from_string_inner s = Some x -> forallb float_char s = true.
Proof.
  unfold float_from_string_inner, strtod. intros H.
  apply skip_c_space_chars.
  destruct (parse_decimal (skip_c_space s)) as [[y rest]|] eqn:Hd.
  - destruct (forallb is_c_space rest) eqn:Hr; [|discriminate].
    eapply parse_decimal_chars; eauto. now apply forallb_space_chars.
  - destruct (parse_inf_or_nan (skip_c_space s)) as [[y rest]|] eqn:Hn;
      [|discriminate].
    destruct (forallb is_c_space rest) eqn:Hr; [|discriminate].
    eapply parse_inf_or_nan_chars; eauto. now apply forallb_space_chars.
Qed.

Lemma drop_underscores_chars (s s' : str) (prev : ascii) :
  drop_underscores prev s = Some s' ->
  forallb float_char s' = true -> forallb float_char s = true.
Proof.
  revert prev s'. induction s as [|c t IH]; simpl; intros prev s' H Hs.
  - reflexivity.
  - destruct (Ascii.eqb c underscore) eqn:Hu.
    + rewrite (float_char_underscore _ Hu). simpl.
      destruct (is_digit prev); [|discriminate]. eapply IH; eauto.
    + destruct (Ascii.eqb prev underscore && negb (is_digit c));
        [discriminate|].
      destruct (drop_underscores c t) as [u|] eqn:Ht; [|discriminate].
      simpl in H. inversion H; subst. simpl in Hs.
      apply andb_true_iff in Hs as [Hc Hu']. rewrite Hc. simpl.
      eapply IH; eauto.
Qed.

Lemma python_float_chars (s : str) (x : float) :
  python_float s = Ok x -> forallb float_char s = true.
Proof.
  unfold python_float. intros H.
  destruct (existsb (Ascii.eqb underscore) s).
  - destruct (drop_underscores zero s) as [s'|] eqn:Hd; [|discriminate].
    destruct (float_from_string_inner s') as [y|] eqn:Hf; [|discriminate].
    eapply drop_underscores_chars; eauto.
    eapply float_from_string_inner_chars; eauto.
  - destruct (float_from_string_inner s) as [y|] eqn:Hf; [|discriminate].
    eapply float_from_string_inner_chars; eauto.
Qed.

Lemma python_float_notin (s : str) (x : float) (c : ascii) :
  float_char c = false -> python_float s = Ok x -> ~ In c s.
Proof.
  intros Hc H Hin. apply python_float_chars in H.
  rewrite forallb_forall in H. apply H in Hin. congruence.
Qed.

(** [float] fails with a [ValueError] and with nothing else. *)
Lemma python_float_error (s : str) (e : exn) :
  python_float s = Raise e -> e = ValueError.
Proof.
  unfold python_float.
  destruct (if existsb (Ascii.eqb underscore) s
            then drop_underscores zero s else Some s) as [s'|].
  - destruct (float_from_string_inner s'); [discriminate|].
    now inversion 1.
  - now inversion 1.
Qed.

End FloatText.

(** * A letter after a float text

    A text that [float] accepts is no longer accepted once a letter is
    appended to it: the number parsers leave the letter over, and the
    words [inf], [infinity] and [nan] have no accepted proper prefix. *)

Section TrailingLetter.

Variable u : ascii.
Hypothesis letter_u : is_letter u = true.

Lemma letter_facts :
  is_digit u = false /\ is_c_space u = false /\
  Ascii.eqb underscore u = false /\
  Ascii.eqb u "+"%char = false /\ Ascii.eqb u "-"%char = false /\
  is_dot u = false.
Proof.
  revert letter_u.
  destruct u as [[] [] [] [] [] [] [] []]; vm_compute; intros H;
    try discriminate H; repeat split.
Qed.

Lemma parse_sign_eq (s : str) :
  parse_sign s =
  match s with
  | c :: t =>
      if Ascii.eqb c "-"%char then (true, t)
      else if Ascii.eqb c "+"%char then (false, t)
      else (false, s)
  | [] => (false, [])
  end.
Proof.
  destruct s as [|c t]; [reflexivity|].
  destruct c as [[] [] [] [] [] [] [] []]; reflexivity.
Qed.

Lemma parse_sign_snoc (s : str) :
  parse_sign (s ++ [u]) = (fst (parse_sign s), snd (parse_sign s) ++ [u]).
Proof.
  destruct letter_facts as [_ [_ [_ [Hp [Hm _]]]]].
  rewrite !parse_sign_eq. destruct s as [|c t]; simpl.
  - now rewrite Hm, Hp.
  - destruct (Ascii.eqb c "-"%char); [reflexivity|].
    now destruct (Ascii.eqb c "+"%char).
Qed.

Lemma span_digits_snoc (s : str) :
  span_digits (s ++ [u]) = (fst (span_digits s), snd (span_digits s) ++ [u]).
Proof.
  destruct letter_facts as [Hd _].
  induction s as [|c t IH]; simpl.
  - now rewrite Hd.
  - destruct (is_digit c); [|reflexivity].
    rewrite IH. now destruct (span_digits t).
Qed.

Lemma parse_exponent_snoc (s : str) :
  parse_exponent (s ++ [u]) =
  (fst (parse_exponent s), snd (parse_exponent s) ++ [u]).
Proof.
  destruct s as [|c t]; simpl.
  - destruct (is_e u); reflexivity.
  - destruct (is_e c); [|reflexivity].
    rewrite parse_sign_snoc. destruct (parse_sign t) as [neg t1]. simpl.
    rewrite span_digits_snoc. destruct (span_digits t1) as [ds rest]. simpl.
    now destruct ds.
Qed.

Lemma parse_decimal_snoc (s : str) :
  parse_decimal (s ++ [u]) =
  match parse_decimal s with
  | Some (x, rest) => Some (x, rest ++ [u])
  | None => None
  end.
Proof.
  destruct letter_facts as [_ [_ [_ [_ [_ Hdot]]]]].
  unfold parse_decimal. rewrite parse_sign_snoc.
  destruct (parse_sign s) as [neg s1]. simpl.
  rewrite span_digits_snoc. destruct (span_digits s1) as [ip s2]. simpl.
  destruct s2 as [|c t]; simpl.
  - rewrite Hdot. destruct (ip ++ []); [reflexivity|].
    assert (He : parse_exponent [u] = (0%Z, [u]))
      by (unfold parse_exponent; now destruct (is_e u)).
    now rewrite He.
  - destruct (is_dot c).
    + rewrite span_digits_snoc. destruct (span_digits t) as [fp s3]. simpl.
      destruct (ip ++ fp); [reflexivity|].
      rewrite parse_exponent_snoc. now destruct (parse_exponent s3).
    + destruct (ip ++ []); [reflexivity|].
      change (c :: t ++ [u]) with ((c :: t) ++ [u]).
      rewrite parse_exponent_snoc. now destruct (parse_exponent (c :: t)).
Qed.

Lemma match_word_snoc (word s r : str) :
  match_word word s = Some r -> match_word word (s ++ [u]) = Some (r ++ [u]).
Proof.
  revert s. induction word as [|w word IH]; simpl; intros s H.
  - now inversion H.
  - destruct s as [|c t]; [discriminate|]. simpl.
    destruct (Ascii.eqb (to_lower c) w); [now apply IH | discriminate].
Qed.

Lemma space_is_not_i (c : ascii) :
  is_c_space c = true -> Ascii.eqb (to_lower c) "i"%char = false.
Proof.
  destruct c as [[] [] [] [] [] [] [] []]; vm_compute; intros H;
    try discriminate H; reflexivity.
Qed.

Lemma match_inity_after_spaces (r : str) :
  forallb is_c_space r = true -> match_word (lit "inity") (r ++ [u]) = None.
Proof.
  destruct r as [|c t]; simpl.
  - intros _. now destruct (Ascii.eqb (to_lower u) "i"%char).
  - rewrite andb_true_iff. intros [Hc _]. now rewrite (space_is_not_i _ Hc).
Qed.

Lemma not_all_space_snoc (r : str) : forallb is_c_space (r ++ [u]) = false.
Proof.
  destruct letter_facts as [_ [Hs _]].
  rewrite forallb_app. simpl. rewrite Hs. apply andb_false_r.
Qed.

Lemma parse_inf_or_nan_snoc (s rest : str) (x : float) :
  parse_inf_or_nan s = Some (x, rest) ->
  forallb is_c_space rest = true ->
  exists x' rest', parse_inf_or_nan (s ++ [u]) = Some (x', rest' ++ [u]).
Proof.
  unfold parse_inf_or_nan. rewrite parse_sign_snoc.
  destruct (parse_sign s) as [neg s1]. cbn [fst snd]. intros H Hrest.
  destruct (match_word (lit "inf") s1) as [r|] eqn:Hinf.
  - rewrite (match_word_snoc _ _ Hinf).
    destruct (match_word (lit "inity") r) as [r'|] eqn:Hinity.
    + rewrite (match_word_snoc _ _ Hinity). eauto.
    + inversion H; subst.
      rewrite (match_inity_after_spaces _ Hrest). eauto.
  - destruct (match_word (lit "nan") s1) as [r|] eqn:Hnan; [|discriminate].
    destruct s1 as [|c t]; [discriminate|].
    assert (Hn : Ascii.eqb (to_lower c) "n"%char = true).
    { simpl in Hnan.
      destruct (Ascii.eqb (to_lower c) "n"%char); [reflexivity|discriminate]. }
    assert (Hi : match_word (lit "inf") ((c :: t) ++ [u]) = None).
    { apply Ascii.eqb_eq in Hn. simpl. rewrite Hn. reflexivity. }
    rewrite Hi, (match_word_snoc _ _ Hnan). eauto.
Qed.

Lemma skip_c_space_snoc (s : str) :
  skip_c_space (s ++ [u]) = skip_c_space s ++ [u].
Proof.
  destruct letter_facts as [_ [Hs _]].
  induction s as [|c t IH]; simpl.
  - now rewrite Hs.
  - now destruct (is_c_space c).
Qed.

Lemma float_from_string_inner_snoc (s : str) (x : float) :
  float_from_string_inner s = Some x ->
  float_from_string_inner (s ++ [u]) = None.
Proof.
  unfold float_from_string_inner, strtod. rewrite skip_c_space_snoc.
  rewrite parse_decimal_snoc.
  destruct (parse_decimal (skip_c_space s)) as [[y rest]|].
  - intros _. now rewrite not_all_space_snoc.
  - destruct (parse_inf_or_nan (skip_c_space s)) as [[y rest]|] eqn:Hn;
      [|discriminate].
    destruct (forallb is_c_space rest) eqn:Hrest; [|discriminate].
    intros _. destruct (parse_inf_or_nan_snoc _ Hn Hrest) as [x' [rest' ->]].
    now rewrite not_all_space_snoc.
Qed.

Lemma drop_underscores_snoc (s s' : str) (prev : ascii) :
  drop_underscores prev s = Some s' ->
  drop_underscores prev (s ++ [u]) = Some (s' ++ [u]).
Proof.
  destruct letter_facts as [Hd [_ [Hu _]]].
  assert (Hu' : Ascii.eqb u underscore = false).
  { rewrite Ascii.eqb_sym. exact Hu. }
  revert prev s'. induction s as [|c t IH]; simpl; intros prev s' H.
  - destruct (Ascii.eqb prev underscore) eqn:Hp; [discriminate|].
    inversion H; subst. now rewrite Hu'.
  - destruct (Ascii.eqb c underscore).
    + destruct (is_digit prev); [now apply IH | discriminate].
    + destruct (Ascii.eqb prev underscore && negb (is_digit c));
        [discriminate|].
      destruct (drop_underscores c t) as [t'|] eqn:Ht; [|discriminate].
      simpl in H. inversion H; subst.
      now rewrite (IH _ _ Ht).
Qed.

(** No float text stays one when a letter is appended. *)
Lemma python_float_snoc_letter (s : str) (x : float) :
  python_float s = Ok x -> python_float (s ++ [u]) = Raise ValueError.
Proof.
  destruct letter_facts as [_ [_ [Hu _]]].
  unfold python_float. rewrite existsb_app. cbn [existsb].
  rewrite Hu, !orb_false_r.
  destruct (existsb (Ascii.eqb underscore) s).
  - destruct (drop_underscores zero s) as [s'|] eqn:Hd; [|discriminate].
    rewrite (drop_underscores_snoc _ _ Hd).
    destruct (float_from_string_inner s') as [y|] eqn:Hf; [|discriminate].
    intros _. now rewrite (float_from_string_inner_snoc _ Hf).
  - destruct (float_from_string_inner s) as [y|] eqn:Hf; [|discriminate].
    intros _. now rewrite (float_from_string_inner_snoc _ Hf).
Qed.

End TrailingLetter.

(** * The parsing step *)

(** The parsing step reads the text between the first and the second
    comma, with every [V] removed. *)
Lemma QueryValue_unfold (resp : str) :
  QueryValue resp =
  match after_sep comma resp with
  | None => Raise IndexError
  | Some t => python_float (replace letter_V [] (before_sep comma t))
  end.
Proof.
  unfold QueryValue. rewrite getitem_split_1.
  now destruct (after_sep comma resp).
Qed.

Lemma QueryValue_error (resp : str) (e : exn) :
  QueryValue resp = Raise e -> is_ParseError e = true.
Proof.
  rewrite QueryValue_unfold.
  destruct (after_sep comma resp) as [t|].
  - intros H. now rewrite (python_float_error _ H).
  - now inversion 1.
Qed.

Lemma QueryValue_volts (ch v : str) :
  ~ In comma ch -> ~ In comma v -> ~ In letter_V v ->
  QueryValue (ch ++ comma :: v ++ [letter_V]) = python_float v.
Proof.
  intros Hch Hc HV. rewrite QueryValue_unfold, after_sep_app by exact Hch.
  rewrite before_sep_notin.
  - rewrite replace_app, replace_remove_notin by exact HV.
    simpl. now rewrite app_nil_r.
  - rewrite in_app_iff. simpl. intros [H|[H|[]]]; [tauto | discriminate].
Qed.

(** C1, as amended: for every response [ch,vV], where [ch] holds no comma,
    [v] is a text that [float] accepts and the unit letter is the capital
    [V], the parsing step returns the float that [v] denotes, whatever the
    channel prefix; the same holds after the [strip()] the program applies
    to each reply.  With any other single letter in the place of the unit
    the step fails with a [ValueError]. *)
Theorem QueryValue_well_formed (ch v : str) (x : float) :
  ~ In comma ch ->
  python_float v = Ok x ->
  QueryValue (ch ++ comma :: v ++ [letter_V]) = Ok x /\
  QueryValue (strip (ch ++ comma :: v ++ [letter_V])) = Ok x /\
  (forall u, is_letter u = true -> u <> letter_V ->
             QueryValue (ch ++ comma :: v ++ [u]) = Raise ValueError).
Proof.
  intros Hch Hv.
  assert (Hc : ~ In comma v) by (eapply python_float_notin; eauto).
  assert (HV : ~ In letter_V v) by (eapply python_float_notin; eauto).
  split; [|split].
  - now rewrite QueryValue_volts.
  - rewrite strip_response by reflexivity.
    rewrite QueryValue_volts; auto.
    intros H. apply Hch. now apply lstrip_incl.
  - intros u Hu HuV.
    rewrite QueryValue_unfold, after_sep_app by exact Hch.
    assert (Hcu : ~ In comma (v ++ [u])).
    { rewrite in_app_iff. simpl. intros [H|[H|[]]]; [tauto|].
      subst u. discriminate Hu. }
    assert (HVu : ~ In letter_V (v ++ [u])).
    { rewrite in_app_iff. simpl. intros [H|[H|[]]]; [tauto|].
      now apply HuV. }
    rewrite before_sep_notin, replace_remove_notin by assumption.
    exact (@python_float_snoc_letter u Hu v x Hv).
Qed.

Lemma QueryValue_well_formed_witness :
  QueryValue (lit "C1" ++ comma :: lit "1.234" ++ [letter_V])
    = Ok (S754_finite false 5557441940175192 (-52)) /\
  QueryValue (strip (lit "C1" ++ comma :: lit "1.234" ++ [letter_V]))
    = Ok (S754_finite false 5557441940175192 (-52)) /\
  (forall u, is_letter u = true -> u <> letter_V ->
             QueryValue (lit "C1" ++ comma :: lit "1.234" ++ [u])
             = Raise ValueError).
Proof.
  apply (@QueryValue_well_formed (lit "C1") (lit "1.234")).
  - vm_compute. intros [H|[H|[]]]; discriminate.
  - vm_compute. reflexivity.
Defined.

(** C1 as stated fails for a unit letter other than [V]: [1.234] is a valid
    float text and [A] a single letter, yet ["C1,1.234A"] is rejected. *)
Lemma QueryValue_unit_letter_counterexample :
  is_letter "A"%char = true /\
  ~ In comma (lit "C1") /\
  python_float (lit "1.234") = Ok (S754_finite false 5557441940175192 (-52)) /\
  QueryValue (lit "C1" ++ comma :: lit "1.234" ++ ["A"%char])
    = Raise ValueError.
Proof.
  repeat split; try (vm_compute; reflexivity).
  vm_compute. intros [H|[H|[]]]; discriminate.
Qed.

(** C2 as stated fails when the numeric segment is read as the
    specification describes it, the whole text after the first comma with a
    trailing unit letter stripped: that text can be no float text while the
    code still returns a number, because the code stops at the second comma
    and strips no letter but [V]. *)
Lemma QueryValue_unparseable_segment_counterexample :
  after_sep comma (lit "C1,1.5,2V") = Some (lit "1.5,2V") /\
  python_float (strip_trailing_letter (lit "1.5,2V")) = Raise ValueError /\
  QueryValue (lit "C1,1.5,2V") = Ok (S754_finite false 6755399441055744 (-52)) /\
  after_sep comma (lit "C1,inf") = Some (lit "inf") /\
  python_float (strip_trailing_letter (lit "inf")) = Raise ValueError /\
  QueryValue (lit "C1,inf") = Ok (S754_infinity false).
Proof. repeat split; vm_compute; reflexivity. Qed.

(** C2, as amended: a response without a comma makes the parsing step fail
    with an [IndexError].  A response with a comma makes it fail, with a
    [ValueError], exactly when the text between the first comma and the
    next one (or the end), with every [V] removed, is not accepted by
    [float]; otherwise the step returns the float of that text.  The step
    fails with no other exception than these two, which the callers treat
    as parse failures. *)
Theorem QueryValue_parse_error (resp : str) :
  (~ In comma resp -> QueryValue resp = Raise IndexError) /\
  (forall ch tail,
      resp = ch ++ comma :: tail -> ~ In comma ch ->
      (forall x, python_float (replace letter_V [] (before_sep comma tail))
                 <> Ok x) ->
      QueryValue resp = Raise ValueError) /\
  (forall ch tail x,
      resp = ch ++ comma :: tail -> ~ In comma ch ->
      python_float (replace letter_V [] (before_sep comma tail)) = Ok x ->
      QueryValue resp = Ok x) /\
  (forall e, QueryValue resp = Raise e -> is_ParseError e = true).
Proof.
  split; [|split; [|split]].
  - intros H. rewrite QueryValue_unfold. now rewrite after_sep_notin.
  - intros ch tail -> Hch Hbad.
    rewrite QueryValue_unfold, after_sep_app by exact Hch.
    destruct (python_float (replace letter_V [] (before_sep comma tail)))
      as [x|e] eqn:Hf.
    + now destruct (Hbad x).
    + now rewrite (python_float_error _ Hf).
  - intros ch tail x -> Hch Hf.
    now rewrite QueryValue_unfold, after_sep_app by exact Hch.
  - apply QueryValue_error.
Qed.

Lemma QueryValue_parse_error_witness :
  QueryValue (lit "C1 1.234V") = Raise IndexError /\
  QueryValue (lit "C1,BADVAL") = Raise ValueError /\
  QueryValue (lit "C1,0.5V,x") = Ok (S754_finite false 4503599627370496 (-53)).
Proof.
  split; [|split].
  - apply (proj1 (QueryValue_parse_error (lit "C1 1.234V"))).
    vm_compute. intuition discriminate.
  - apply (proj1 (proj2 (QueryValue_parse_error (lit "C1,BADVAL")))
             (lit "C1") (lit "BADVAL")).
    + reflexivity.
    + vm_compute. intuition discriminate.
    + intros x. vm_compute. discriminate.
  - apply (proj1 (proj2 (proj2 (QueryValue_parse_error (lit "C1,0.5V,x"))))
             (lit "C1") (lit "0.5V,x")).
    + reflexivity.
    + vm_compute. intuition discriminate.
    + vm_compute. reflexivity.
Defined.

(** C3 as stated fails: with a second comma the code reads only up to that
    comma, and it removes every [V] rather than one trailing letter. *)
Lemma QueryValue_spec_reading_counterexample :
  QueryValue (lit "C1,1.5,2V") = Ok (S754_finite false 6755399441055744 (-52)) /\
  spec_parsed_measurement (lit "C1,1.5,2V") = Raise ValueError /\
  QueryValue (lit "C1,1V5V") = Ok (S754_finite false 8444249301319680 (-49)) /\
  spec_parsed_measurement (lit "C1,1V5V") = Raise ValueError /\
  QueryValue (lit "C1,1.5A") = Raise ValueError /\
  spec_parsed_measurement (lit "C1,1.5A")
    = Ok (S754_finite false 6755399441055744 (-52)).
Proof. repeat split; vm_compute; reflexivity. Qed.

Lemma strip_trailing_letter_snoc (s : str) (c : ascii) :
  is_letter c = true -> strip_trailing_letter (s ++ [c]) = s.
Proof.
  intros Hc. unfold strip_trailing_letter.
  rewrite rev_app_distr. simpl. rewrite Hc. apply rev_involutive.
Qed.

(** C3, as amended: for every response the parsed measurement is [float]
    applied to the text between the first comma and the next one (or the
    end), with every capital [V] removed; a response without a comma has no
    parsed value.  For a response with one comma whose tail is a text free
    of [V] followed by one [V], this is the text after the first comma with
    its trailing unit letter stripped. *)
Theorem QueryValue_segment (resp : str) :
  QueryValue resp =
    match after_sep comma resp with
    | None => Raise IndexError
    | Some t => python_float (replace letter_V [] (before_sep comma t))
    end /\
  (forall ch v,
      resp = ch ++ comma :: v ++ [letter_V] ->
      ~ In comma ch -> ~ In comma v -> ~ In letter_V v ->
      QueryValue resp = spec_parsed_measurement resp).
Proof.
  split; [apply QueryValue_unfold|].
  intros ch v -> Hch Hc HV.
  rewrite QueryValue_volts by assumption.
  unfold spec_parsed_measurement. rewrite after_sep_app by exact Hch.
  now rewrite strip_trailing_letter_snoc.
Qed.

Lemma QueryValue_segment_witness :
  QueryValue (lit "C1,0.123V") = spec_parsed_measurement (lit "C1,0.123V").
Proof.
  apply (proj2 (QueryValue_segment (lit "C1,0.123V")) (lit "C1") (lit "0.123")).
  - reflexivity.
  - vm_compute. intuition discriminate.
  - vm_compute. intuition discriminate.
  - vm_compute. intuition discriminate.
Defined.

(** * Arithmetic on readings *)

(** The float literals used below, as binary64 numbers. *)
Lemma float_literal_values :
  float_literal "0.0" = S754_zero false /\
  float_literal "0.5" = S754_finite false 4503599627370496 (-53) /\
  float_literal "0.25" = S754_finite false 4503599627370496 (-54) /\
  float_literal "10.0" = S754_finite false 5629499534213120 (-49) /\
  float_literal "20.0" = S754_finite false 5629499534213120 (-48) /\
  float_literal "0.123" = S754_finite false 8863084066665136 (-56) /\
  float_literal "123.0" = S754_finite false 8655355533852672 (-46) /\
  float_literal "1.234" = S754_finite false 5557441940175192 (-52) /\
  float_literal "1234.0" = S754_finite false 5427189394702336 (-42) /\
  thousand = S754_finite false 8796093022208000 (-43).
Proof. repeat split; vm_compute; reflexivity. Qed.

Lemma toMillivolts_zero (s : bool) : toMillivolts (S754_zero s) = S754_zero s.
Proof. destruct s; reflexivity. Qed.

(** C4: for a divisor [y] that is not a zero, the resistance expression
    yields the float product of the float quotient [x / y] with [r], as in
    [ComputeResistance(0.5, 0.25, 10.0) == 20.0]; in the loop it is applied
    to the two mean voltages, each multiplied by 1000, with [R = 10.0]. *)
Theorem ComputeResistance_ratio :
  (forall x y r : float,
      float_is_zero y = false ->
      ComputeResistance x y r = Ok (float_mul (SFdiv prec emax x y) r)) /\
  ComputeResistance (float_literal "0.5") (float_literal "0.25")
    (float_literal "10.0") = Ok (float_literal "20.0") /\
  (forall (rms_c1 mean_c1 rms_c2 mean_c2 : str) (a b c d : float),
      QueryValue rms_c1 = Ok a -> QueryValue mean_c1 = Ok b ->
      QueryValue rms_c2 = Ok c -> QueryValue mean_c2 = Ok d ->
      extract_values R_ref rms_c1 mean_c1 rms_c2 mean_c2 =
      (r_sensor <- ComputeResistance (toMillivolts b) (toMillivolts d)
                     (float_literal "10.0") ;;
       Ok (toMillivolts a, toMillivolts b, toMillivolts c, toMillivolts d,
           r_sensor))%result).
Proof.
  split; [|split].
  - intros x y r Hy. unfold ComputeResistance, float_truediv.
    now rewrite Hy.
  - vm_compute. reflexivity.
  - intros rms_c1 mean_c1 rms_c2 mean_c2 a b c d Ha Hb Hc Hd.
    unfold extract_values. rewrite Ha, Hb, Hc, Hd. reflexivity.
Qed.

Lemma ComputeResistance_ratio_witness :
  ComputeResistance (float_literal "1.234") (float_literal "0.123")
    (float_literal "10.0")
  = Ok (float_mul
          (SFdiv prec emax (float_literal "1.234") (float_literal "0.123"))
          (float_literal "10.0")) /\
  extract_values R_ref (lit "C1,0.5V") (lit "C1,0.5V") (lit "C2,0.25V")
    (lit "C2,0.25V")
  = (r_sensor <- ComputeResistance (toMillivolts (float_literal "0.5"))
                   (toMillivolts (float_literal "0.25"))
                   (float_literal "10.0") ;;
     Ok (toMillivolts (float_literal "0.5"), toMillivolts (float_literal "0.5"),
         toMillivolts (float_literal "0.25"),
         toMillivolts (float_literal "0.25"), r_sensor))%result.
Proof.
  split.
  - apply (proj1 ComputeResistance_ratio). vm_compute. reflexivity.
  - apply (proj2 (proj2 ComputeResistance_ratio)); vm_compute; reflexivity.
Defined.

(** C5: with a zero divisor, of either sign, the resistance expression
    raises [ZeroDivisionError] whatever [x] and [r] are; [0.0] is such a
    divisor. *)
Theorem ComputeResistance_zero_divisor (x r : float) (s : bool) :
  ComputeResistance x (S754_zero s) r = Raise ZeroDivisionError /\
  ComputeResistance x (float_literal "0.0") r = Raise ZeroDivisionError.
Proof. split; reflexivity. Qed.

(** * Running the program *)

Lemma call_Reply (ev : event) (w : world) (s : str) :
  script w (clock w) = Reply s -> call ev w = (Returns s, tick ev w).
Proof. intros H. unfold call. now rewrite H. Qed.

Lemma call_Fails (ev : event) (w : world) (e : exn) :
  script w (clock w) = Fails e -> call ev w = (Raises e, tick ev w).
Proof. intros H. unfold call. now rewrite H. Qed.

Lemma bind_Returns {A B} (m : M A) (k : A -> M B) (w w' : world) (a : A) :
  m w = (Returns a, w') -> bind m k w = k a w'.
Proof. intros H. unfold bind. now rewrite H. Qed.

Lemma bind_Raises {A B} (m : M A) (k : A -> M B) (w w' : world) (e : exn) :
  m w = (Raises e, w') -> bind m k w = (Raises e, w').
Proof. intros H. unfold bind. now rewrite H. Qed.

Lemma while_true_step (fuel : nat) (body : M unit) (w w' : world) :
  body w = (Returns tt, w') ->
  while_true (S fuel) body w = while_true fuel body w'.
Proof. intros H. simpl. now rewrite (@bind_Returns _ _ _ _ _ _ _ H). Qed.

Lemma while_true_exit (fuel : nat) (body : M unit) (w w' : world) (e : exn) :
  body w = (Raises e, w') ->
  while_true (S fuel) body w = (Raises e, w').
Proof. intros H. simpl. now rewrite (@bind_Raises _ _ _ _ _ _ _ H). Qed.

(** C6: the conversion multiplies by 1000, [toMillivolts(1.234) == 1234.0]
    and [toMillivolts(0.0) == 0.0]; the response ["C1,0.123V"] is parsed to
    [0.123] and an iteration of [continuous_dc_average] that receives it
    prints the mean [123.0]. *)
Theorem toMillivolts_examples :
  (forall v, toMillivolts v = float_mul v (float_of_int 1000)) /\
  toMillivolts (float_literal "1.234") = float_literal "1234.0" /\
  toMillivolts (float_literal "0.0") = float_literal "0.0" /\
  QueryValue (lit "C1,0.123V") = Ok (float_literal "0.123") /\
  toMillivolts (float_literal "0.123") = float_literal "123.0" /\
  (forall w pause,
      script w (clock w) = Reply (lit "C1,0.123V") ->
      script w (S (clock w)) = Reply pause ->
      dc_average_body w =
      (Returns tt,
       tick (EvSleep 100)
         (record (EvPrint (MsgMean (float_literal "123.0")))
            (tick (EvQuery (lit "C1:PAVA? MEAN")) w)))).
Proof.
  repeat split; try (vm_compute; reflexivity).
  intros w pause Hq Hs. unfold dc_average_body, inst_query.
  rewrite (@bind_Returns _ _ _ _ _ _ _ (@call_Reply _ _ _ Hq)).
  change (strip (lit "C1,0.123V")) with (lit "C1,0.123V").
  change (v <- QueryValue (lit "C1,0.123V") ;; Ok (toMillivolts v))%result
    with (Ok (float_literal "123.0")).
  unfold sleep, bind, call, lift, ret, print.
  cbn [script clock trace tick record]. now rewrite Hs.
Qed.

Lemma toMillivolts_examples_witness :
  dc_average_body (scripted [Reply (lit "C1,0.123V")] ok) =
  (Returns tt,
   tick (EvSleep 100)
     (record (EvPrint (MsgMean (float_literal "123.0")))
        (tick (EvQuery (lit "C1:PAVA? MEAN"))
           (scripted [Reply (lit "C1,0.123V")] ok)))).
Proof.
  apply (proj2 (proj2 (proj2 (proj2 (proj2 toMillivolts_examples))))
           (scripted [Reply (lit "C1,0.123V")] ok) []);
    reflexivity.
Defined.

(** ** An iteration of [continuous_measurement] *)

Ltac run_io :=
  unfold inst_write, inst_query, inst_close, sleep, print_unicode, bind,
    call, lift, ret, raise, print;
  cbn [script clock trace tick record].

Lemma measurement_body_replies (R : float) (w : world) (r1 r2 r3 r4 : str) :
  script w (clock w) = Reply r1 ->
  script w (1 + clock w) = Reply r2 ->
  script w (2 + clock w) = Reply r3 ->
  script w (3 + clock w) = Reply r4 ->
  measurement_body R w =
  report_values R (strip r1) (strip r2) (strip r3) (strip r4) (after_queries w).
Proof.
  intros H1 H2 H3 H4. unfold measurement_body, after_queries.
  cbn [Nat.add] in *. run_io.
  rewrite H1. cbn [script clock trace tick record]. rewrite H2.
  cbn [script clock trace tick record]. rewrite H3.
  cbn [script clock trace tick record]. rewrite H4. reflexivity.
Qed.

(** A query that fails ends the iteration with its exception. *)
Lemma measurement_body_query_fails (R : float) (w : world) (e : exn) :
  script w (clock w) = Fails e ->
  measurement_body R w = (Raises e, tick (EvQuery (lit "C1:PAVA? RMS")) w).
Proof.
  intros H. unfold measurement_body. run_io. now rewrite H.
Qed.

Lemma extract_values_parse_failure (R : float) (a b c d : str) :
  (exists e, QueryValue a = Raise e) \/ (exists e, QueryValue b = Raise e) \/
  (exists e, QueryValue c = Raise e) \/ (exists e, QueryValue d = Raise e) ->
  exists e, extract_values R a b c d = Raise e /\ is_ParseError e = true.
Proof.
  intros H. unfold extract_values.
  destruct (QueryValue a) as [va|ea] eqn:Ha;
    [|exists ea; split; [reflexivity | now apply (QueryValue_error a)]].
  destruct (QueryValue b) as [vb|eb] eqn:Hb;
    [|exists eb; split; [reflexivity | now apply (QueryValue_error b)]].
  destruct (QueryValue c) as [vc|ec] eqn:Hc;
    [|exists ec; split; [reflexivity | now apply (QueryValue_error c)]].
  destruct (QueryValue d) as [vd|ed] eqn:Hd;
    [|exists ed; split; [reflexivity | now apply (QueryValue_error d)]].
  destruct H as [[e H]|[[e H]|[[e H]|[e H]]]]; discriminate.
Qed.

Lemma extract_values_zero_mean_c2 (R : float) (a b c d : str)
      (va vb vc : float) (s : bool) :
  QueryValue a = Ok va -> QueryValue b = Ok vb -> QueryValue c = Ok vc ->
  QueryValue d = Ok (S754_zero s) ->
  extract_values R a b c d = Raise ZeroDivisionError.
Proof.
  intros Ha Hb Hc Hd. unfold extract_values. rewrite Ha, Hb, Hc, Hd.
  cbn [rbind]. now rewrite toMillivolts_zero.
Qed.

Lemma report_values_parse_error (R : float) (a b c d : str) (e : exn)
      (w : world) :
  extract_values R a b c d = Raise e -> is_ParseError e = true ->
  report_values R a b c d w =
  (Returns tt, record (EvPrint (MsgUnexpected a b c d)) w).
Proof.
  intros H He. unfold report_values, try_except. run_io. rewrite H.
  destruct e; try discriminate; reflexivity.
Qed.

Lemma report_values_other_error (R : float) (a b c d : str) (e : exn)
      (w : world) :
  extract_values R a b c d = Raise e -> is_ParseError e = false ->
  report_values R a b c d w = (Raises e, w).
Proof.
  intros H He. unfold report_values, try_except. run_io. rewrite H.
  destruct e; try discriminate; reflexivity.
Qed.

Lemma report_values_reading (R : float) (a b c d : str)
      (va vb vc vd r : float) (w : world) (line pause : str) :
  extract_values R a b c d = Ok (va, vb, vc, vd, r) ->
  script w (clock w) = Reply line ->
  script w (S (clock w)) = Reply pause ->
  report_values R a b c d w =
  (Returns tt, tick (EvSleep 1000) (tick (EvPrint (MsgReading va vb vc vd r)) w)).
Proof.
  intros H Hl Hs. unfold report_values, try_except. run_io. rewrite H.
  cbn [script clock trace tick record]. rewrite Hl.
  cbn [script clock trace tick record]. now rewrite Hs.
Qed.

(** The printing of the reading is outside the inner [try]: when it
    raises, even a [ValueError], the exception leaves the iteration. *)
Lemma report_values_print_fails (R : float) (a b c d : str)
      (va vb vc vd r : float) (w : world) (e : exn) :
  extract_values R a b c d = Ok (va, vb, vc, vd, r) ->
  script w (clock w) = Fails e ->
  report_values R a b c d w =
  (Raises e, tick (EvPrint (MsgReading va vb vc vd r)) w).
Proof.
  intros H Hl. unfold report_values, try_except. run_io. rewrite H.
  cbn [script clock trace tick record]. now rewrite Hl.
Qed.

(** C7: when every query of an iteration is answered and one of the four
    stripped replies fails to parse, the iteration prints the report of the
    unexpected responses and ends normally, and the loop goes on with the
    next iteration exactly as a loop started in the world reached. *)
Theorem parse_failure_skips_iteration
        (R : float) (w : world) (r1 r2 r3 r4 : str) :
  script w (clock w) = Reply r1 ->
  script w (1 + clock w) = Reply r2 ->
  script w (2 + clock w) = Reply r3 ->
  script w (3 + clock w) = Reply r4 ->
  (exists e, QueryValue (strip r1) = Raise e) \/
  (exists e, QueryValue (strip r2) = Raise e) \/
  (exists e, QueryValue (strip r3) = Raise e) \/
  (exists e, QueryValue (strip r4) = Raise e) ->
  let w' :=
    record
      (EvPrint (MsgUnexpected (strip r1) (strip r2) (strip r3) (strip r4)))
      (after_queries w) in
  measurement_body R w = (Returns tt, w') /\
  (forall fuel,
      while_true (S fuel) (measurement_body R) w =
      while_true fuel (measurement_body R) w') /\
  script w' = script w /\ clock w' = 4 + clock w.
Proof.
  intros H1 H2 H3 H4 Hbad w'.
  destruct (extract_values_parse_failure R _ _ _ _ Hbad) as [e [He Hp]].
  assert (Hbody : measurement_body R w = (Returns tt, w')).
  { rewrite (measurement_body_replies R w H1 H2 H3 H4).
    exact (report_values_parse_error _ _ _ _ _ _ He Hp). }
  split; [exact Hbody|]. split; [|split; reflexivity].
  intros fuel. now apply while_true_step.
Qed.

Lemma parse_failure_skips_iteration_witness :
  let w' :=
    record
      (EvPrint (MsgUnexpected (strip (lit "C1,BADVAL")) (strip (lit "C1,0.5V"))
                  (strip (lit "C2,0.25V")) (strip (lit "C2,0.25V"))))
      (after_queries badval_world) in
  measurement_body R_ref badval_world = (Returns tt, w') /\
  (forall fuel,
      while_true (S fuel) (measurement_body R_ref) badval_world =
      while_true fuel (measurement_body R_ref) w') /\
  script w' = script badval_world /\ clock w' = 4 + clock badval_world.
Proof.
  apply (@parse_failure_skips_iteration R_ref badval_world
           (lit "C1,BADVAL") (lit "C1,0.5V") (lit "C2,0.25V") (lit "C2,0.25V"));
    try reflexivity.
  left. exists ValueError. vm_compute. reflexivity.
Defined.

(** The scenario of the malformed reply ["C1,BADVAL"]: the first iteration
    reports it, the second one prints a reading and pauses. *)
Lemma badval_then_reading :
  trace (snd (while_true 2 (measurement_body R_ref) badval_world)) =
  [EvQuery (lit "C1:PAVA? RMS"); EvQuery (lit "C1:PAVA? MEAN");
   EvQuery (lit "C2:PAVA? RMS"); EvQuery (lit "C2:PAVA? MEAN");
   EvPrint (MsgUnexpected (lit "C1,BADVAL") (lit "C1,0.5V") (lit "C2,0.25V")
              (lit "C2,0.25V"));
   EvQuery (lit "C1:PAVA? RMS"); EvQuery (lit "C1:PAVA? MEAN");
   EvQuery (lit "C2:PAVA? RMS"); EvQuery (lit "C2:PAVA? MEAN");
   EvPrint (MsgReading (toMillivolts (float_literal "0.5"))
              (toMillivolts (float_literal "0.5"))
              (toMillivolts (float_literal "0.25"))
              (toMillivolts (float_literal "0.25"))
              (float_literal "20.0"));
   EvSleep 1000].
Proof. vm_compute. reflexivity. Qed.

(** In [continuous_measurement] a reply ["C1,0.123V"] is printed as
    [123.0] as well; with four such replies the ratio is one and the
    resistance [10.0]. *)
Lemma reading_of_0_123 (w : world) (line pause : str) :
  script w (clock w) = Reply line ->
  script w (S (clock w)) = Reply pause ->
  report_values R_ref (lit "C1,0.123V") (lit "C1,0.123V") (lit "C1,0.123V")
    (lit "C1,0.123V") w =
  (Returns tt,
   tick (EvSleep 1000)
     (tick
        (EvPrint (MsgReading (float_literal "123.0") (float_literal "123.0")
                    (float_literal "123.0") (float_literal "123.0")
                    (float_literal "10.0"))) w)).
Proof.
  intros Hl Hs.
  apply report_values_reading with (line := line) (pause := pause);
    [|exact Hl|exact Hs].
  vm_compute. reflexivity.
Qed.

(** ** A zero reading on channel 2 *)

(** When the mean voltage of channel 2 parses to a zero, the division
    raises inside the [try] block, no clause of it matches, and the
    exception leaves the loop. *)
Lemma zero_mean_c2_ends_loop
      (R : float) (w : world) (r1 r2 r3 r4 : str) (a b c : float) (s : bool) :
  script w (clock w) = Reply r1 ->
  script w (1 + clock w) = Reply r2 ->
  script w (2 + clock w) = Reply r3 ->
  script w (3 + clock w) = Reply r4 ->
  QueryValue (strip r1) = Ok a -> QueryValue (strip r2) = Ok b ->
  QueryValue (strip r3) = Ok c -> QueryValue (strip r4) = Ok (S754_zero s) ->
  forall fuel,
    while_true (S fuel) (measurement_body R) w =
    (Raises ZeroDivisionError, after_queries w).
Proof.
  intros H1 H2 H3 H4 Ha Hb Hc Hd fuel. apply while_true_exit.
  rewrite (measurement_body_replies R w H1 H2 H3 H4).
  apply report_values_other_error with (e := ZeroDivisionError);
    [|reflexivity].
  exact (extract_values_zero_mean_c2 R _ _ _ _ Ha Hb Hc Hd).
Qed.

(** C8, on the code: with a reply of zero volts for the mean of channel 2
    the loop does not skip the iteration; [continuous_measurement] prints
    the general error line for the [ZeroDivisionError] and returns after
    that one iteration, however many iterations are allowed. *)
Theorem zero_division_ends_polling (fuel : nat) :
  continuous_measurement (S fuel) zero_volt_world =
  (Returns tt,
   mkWorld (script zero_volt_world) 8
     [EvWrite (lit "PACU RMS,C1"); EvWrite (lit "PACU MEAN,C1");
      EvWrite (lit "PACU RMS,C2"); EvWrite (lit "PACU MEAN,C2");
      EvQuery (lit "C1:PAVA? RMS"); EvQuery (lit "C1:PAVA? MEAN");
      EvQuery (lit "C2:PAVA? RMS"); EvQuery (lit "C2:PAVA? MEAN");
      EvPrint (MsgGeneral ZeroDivisionError)]).
Proof. vm_compute. reflexivity. Qed.

(** ** Closing the session *)

Lemma closes_record (ev : event) (w : world) :
  closes (record ev w) = closes w + (if is_close ev then 1 else 0).
Proof.
  unfold closes, record. cbn [trace]. rewrite filter_app, length_app.
  simpl. now destruct (is_close ev).
Qed.

Lemma closes_tick (ev : event) (w : world) :
  closes (tick ev w) = closes w + (if is_close ev then 1 else 0).
Proof. exact (closes_record ev w). Qed.

Section KeepsCloses.

Context {A B : Type}.

Lemma keeps_ret (a : A) : keeps_closes (ret a).
Proof. intros w. reflexivity. Qed.

Lemma keeps_raise (e : exn) : keeps_closes (@raise A e).
Proof. intros w. reflexivity. Qed.

Lemma keeps_lift (r : result A) : keeps_closes (lift r).
Proof. destruct r; [apply keeps_ret | apply keeps_raise]. Qed.

Lemma keeps_bind (m : M A) (k : A -> M B) :
  keeps_closes m -> (forall a, keeps_closes (k a)) -> keeps_closes (bind m k).
Proof.
  intros Hm Hk w. unfold bind. specialize (Hm w).
  destruct (m w) as [[a|e|] w']; cbn [snd] in *; [|assumption..].
  now rewrite Hk.
Qed.

Lemma keeps_try_except (m : M A) (h : exn -> option (M A)) :
  keeps_closes m ->
  (forall e handler, h e = Some handler -> keeps_closes handler) ->
  keeps_closes (try_except m h).
Proof.
  intros Hm Hh w. unfold try_except. specialize (Hm w).
  destruct (m w) as [[a|e|] w']; cbn [snd] in *; [assumption| |assumption].
  destruct (h e) as [handler|] eqn:He; [|assumption].
  now rewrite (Hh _ _ He).
Qed.

End KeepsCloses.

Lemma keeps_call (ev : event) : is_close ev = false -> keeps_closes (call ev).
Proof.
  intros Hev w. unfold call.
  destruct (script w (clock w)); cbn [snd]; rewrite closes_tick, Hev; lia.
Qed.

Lemma keeps_print (m : message) : keeps_closes (print m).
Proof. intros w. unfold print. cbn [snd]. rewrite closes_record. simpl. lia. Qed.

Lemma keeps_command (ev : event) :
  is_close ev = false -> keeps_closes (call ev ;; ret tt)%io.
Proof.
  intros Hev. apply keeps_bind; [now apply keeps_call|].
  intros _. apply keeps_ret.
Qed.

Lemma keeps_while_true (fuel : nat) (body : M unit) :
  keeps_closes body -> keeps_closes (while_true fuel body).
Proof.
  intros Hb. induction fuel as [|fuel IH]; simpl.
  - intros w. reflexivity.
  - apply keeps_bind; auto.
Qed.

Lemma keeps_report {A} (a : A) (e : exn) (handler : M A) :
  report a e = Some handler -> keeps_closes handler.
Proof.
  destruct e; simpl; intros H; inversion H; subst;
    (apply keeps_bind; [apply keeps_print | intros _; apply keeps_ret]).
Qed.

Lemma keeps_report_or_stop (e : exn) (handler : M unit) :
  report_or_stop e = Some handler -> keeps_closes handler.
Proof.
  destruct e; try apply (@keeps_report unit tt).
  simpl. intros H. inversion H; subst. apply keeps_print.
Qed.

Lemma keeps_report_values (R : float) (a b c d : str) :
  keeps_closes (report_values R a b c d).
Proof.
  unfold report_values. apply keeps_bind.
  - apply keeps_try_except.
    + apply keeps_bind; [apply keeps_lift | intros v; apply keeps_ret].
    + intros e handler He.
      destruct e; inversion He; subst;
        (apply keeps_bind; [apply keeps_print | intros _; apply keeps_ret]).
  - intros [[[[[v1 v2] v3] v4] v5]|]; [|apply keeps_ret].
    apply keeps_bind; [now apply keeps_command|].
    intros _. now apply keeps_command.
Qed.

Lemma keeps_measurement_body (R : float) : keeps_closes (measurement_body R).
Proof.
  unfold measurement_body, inst_query.
  repeat (apply keeps_bind; [now apply keeps_call | intros ?]).
  apply keeps_report_values.
Qed.

(** The polling never closes the session itself. *)
Lemma keeps_continuous_measurement (fuel : nat) :
  keeps_closes (continuous_measurement fuel).
Proof.
  unfold continuous_measurement. apply keeps_try_except.
  - unfold inst_write.
    repeat (apply keeps_bind; [now apply keeps_command | intros ?]).
    apply keeps_while_true, keeps_measurement_body.
  - apply keeps_report_or_stop.
Qed.

(** [continuous_measurement] raises nothing: it catches the interrupt and
    every exception. *)
Lemma continuous_measurement_no_raise (fuel : nat) (w : world) (e : exn) :
  fst (continuous_measurement fuel w) <> Raises e.
Proof.
  unfold continuous_measurement, try_except.
  match goal with
  | |- context [match ?m w with _ => _ end] =>
      destruct (m w) as [[a|e'|] w']
  end; cbn [fst]; try discriminate.
  destruct e'; simpl; discriminate.
Qed.

(** [main] after a successful [open_resource]. *)
Lemma main_opened (fuel : nat) (w : world) (s1 s2 : str) :
  script w (clock w) = Reply s1 ->
  script w (S (clock w)) = Reply s2 ->
  main fuel w =
  try_finally
    (try_except
       (ret s2 ;; call (EvSetTimeout 5000) ;; continuous_measurement fuel)%io
       (report tt))
    inst_close
    (tick (EvOpen scope_address) (tick EvResourceManager w)).
Proof.
  intros H1 H2. unfold main.
  rewrite (@bind_Returns _ _ _ _ _ _ _ (@call_Reply EvResourceManager _ _ H1)).
  unfold attempt, bind at 1, call at 1.
  cbn [script clock trace tick]. now rewrite H2.
Qed.

(** [main] after a failed [open_resource]. *)
Lemma main_not_opened (fuel : nat) (w : world) (s : str) (e : exn) :
  script w (clock w) = Reply s ->
  script w (S (clock w)) = Fails e ->
  main fuel w =
  try_finally
    (try_except
       (@raise str e ;; call (EvSetTimeout 5000) ;; continuous_measurement fuel)%io
       (report tt))
    (raise UnboundLocalError)
    (tick (EvOpen scope_address) (tick EvResourceManager w)).
Proof.
  intros H1 H2. unfold main.
  rewrite (@bind_Returns _ _ _ _ _ _ _ (@call_Reply EvResourceManager _ _ H1)).
  unfold attempt, bind at 1, call at 1.
  cbn [script clock trace tick]. now rewrite H2.
Qed.

Lemma closes_inst_close (w : world) :
  closes (snd (inst_close w)) = S (closes w).
Proof.
  unfold inst_close. run_io.
  destruct (script w (clock w)); cbn [snd]; rewrite closes_tick; simpl; lia.
Qed.

(** Once the session is open, a run of [main] that ends closes it exactly
    once, whatever happened in between. *)
Lemma main_closes_once (fuel : nat) (w : world) (s1 s2 : str) :
  script w (clock w) = Reply s1 ->
  script w (S (clock w)) = Reply s2 ->
  fst (main fuel w) <> Running ->
  closes (snd (main fuel w)) = S (closes w).
Proof.
  intros H1 H2. rewrite (main_opened fuel w H1 H2).
  set (w2 := tick (EvOpen scope_address) (tick EvResourceManager w)).
  assert (Hw2 : closes w2 = closes w).
  { unfold w2. rewrite !closes_tick. simpl. lia. }
  set (body := try_except _ _).
  assert (Hbody : keeps_closes body).
  { apply keeps_try_except.
    - apply keeps_bind; [apply keeps_ret | intros _].
      apply keeps_bind; [now apply keeps_call | intros _].
      apply keeps_continuous_measurement.
    - intros e handler. apply keeps_report. }
  unfold try_finally. specialize (Hbody w2).
  pose proof (closes_inst_close (snd (body w2))) as Hc.
  destruct (body w2) as [[[]|e|] w3]; cbn [fst snd] in *.
  - intros _. destruct (inst_close w3) as [[[]|e|] w4]; cbn [snd] in *; lia.
  - intros _. destruct (inst_close w3) as [[[]|e'|] w4]; cbn [snd] in *; lia.
  - intros H. now destruct H.
Qed.

(** A failure of [open_resource] leaves [inst] unbound: the [finally]
    clause raises [UnboundLocalError] and nothing is closed. *)
Lemma main_without_session (fuel : nat) (w : world) (s : str) (e : exn) :
  script w (clock w) = Reply s ->
  script w (S (clock w)) = Fails e ->
  fst (main fuel w) = Raises UnboundLocalError /\
  closes (snd (main fuel w)) = closes w.
Proof.
  intros H1 H2. rewrite (main_not_opened fuel w H1 H2).
  unfold try_finally, try_except, bind at 1. cbn [lift raise].
  destruct e; cbn [report print bind ret raise fst snd];
    rewrite ?closes_record, !closes_tick; simpl; split; (reflexivity || lia).
Qed.

(** C9, on the code: when [open_resource] fails with a [VisaIOError], [main]
    prints the error, then its [finally] clause fails on the unbound
    [inst]: the caller gets an [UnboundLocalError] and no [close] has been
    called. *)
Theorem open_failure_closes_nothing (fuel : nat) :
  main fuel open_failure_world =
  (Raises UnboundLocalError,
   mkWorld (script open_failure_world) 2
     [EvResourceManager; EvOpen scope_address;
      EvPrint (MsgVisa VisaIOError)]) /\
  closes (snd (main fuel open_failure_world)) = 0.
Proof. split; vm_compute; reflexivity. Qed.

(** The scenario of the timeout: the loop ends at the failed query, the
    error is printed and the session is closed once. *)
Lemma timeout_closes_once (fuel : nat) :
  fst (main (S (S fuel)) timeout_world) = Returns tt /\
  closes (snd (main (S (S fuel)) timeout_world)) = 1 /\
  skipn 13 (trace (snd (main (S (S fuel)) timeout_world))) =
  [EvQuery (lit "C1:PAVA? RMS"); EvPrint (MsgVisa VisaIOError); EvClose].
Proof. repeat split; vm_compute; reflexivity. Qed.

(** A query that fails, whichever of the four, ends the loop at once with
    its exception: nothing is retried. *)
Lemma query_failure_ends_loop (R : float) (w : world) (e : exn) (i : nat) :
  i < 4 ->
  (forall j, j < i -> exists r, script w (j + clock w) = Reply r) ->
  script w (i + clock w) = Fails e ->
  exists w', forall fuel,
    while_true (S fuel) (measurement_body R) w = (Raises e, w').
Proof.
  intros Hi Hprev Hfail.
  assert (Hbody : exists w', measurement_body R w = (Raises e, w')).
  { unfold measurement_body. run_io.
    destruct i as [|[|[|[|i]]]]; [| | | |lia]; cbn [Nat.add] in *.
    - rewrite Hfail. eauto.
    - destruct (Hprev 0) as [r0 H0]; [lia|]. cbn [Nat.add] in H0.
      rewrite H0. cbn [script clock trace tick record]. rewrite Hfail. eauto.
    - destruct (Hprev 0) as [r0 H0]; [lia|]. cbn [Nat.add] in H0.
      destruct (Hprev 1) as [r1 H1]; [lia|]. cbn [Nat.add] in H1.
      rewrite H0. cbn [script clock trace tick record]. rewrite H1.
      cbn [script clock trace tick record]. rewrite Hfail. eauto.
    - destruct (Hprev 0) as [r0 H0]; [lia|]. cbn [Nat.add] in H0.
      destruct (Hprev 1) as [r1 H1]; [lia|]. cbn [Nat.add] in H1.
      destruct (Hprev 2) as [r2 H2]; [lia|]. cbn [Nat.add] in H2.
      rewrite H0. cbn [script clock trace tick record]. rewrite H1.
      cbn [script clock trace tick record]. rewrite H2.
      cbn [script clock trace tick record]. rewrite Hfail. eauto. }
  destruct Hbody as [w' Hbody]. exists w'. intros fuel.
  now apply while_true_exit.
Qed.

(** ** [calculate_resistance] *)

Lemma float_eq_zero_is_zero (x : float) : float_eq_zero x = float_is_zero x.
Proof. destruct x as [[]|[]| |[] m e]; reflexivity. Qed.

(** The run of [calculate_resistance] once the three calls are answered:
    the result line is printed by a fourth call. *)
Lemma calculate_resistance_replies
      (current : float) (w : world) (s1 s2 reply : str) :
  float_eq_zero current = false ->
  script w (clock w) = Reply s1 ->
  script w (1 + clock w) = Reply s2 ->
  script w (2 + clock w) = Reply reply ->
  let w3 :=
    tick (EvQuery (lit "C1:PAVA? MEAN"))
      (tick (EvSleep 1000) (tick (EvWrite (lit "PACU MEAN,C1")) w)) in
  calculate_resistance current w =
  match QueryValue (strip reply) with
  | Ok v =>
      let w4 := tick (EvPrint (MsgResistance (SFdiv prec emax v current))) w3 in
      match script w (3 + clock w) with
      | Reply _ => (Returns (Some (SFdiv prec emax v current)), w4)
      | Fails e =>
          if is_Exception e
          then (Returns None, record (EvPrint (error_message e)) w4)
          else (Raises e, w4)
      end
  | Raise _ =>
      (Returns None, record (EvPrint (MsgGeneral ValueError)) w3)
  end.
Proof.
  intros Hc H1 H2 H3 w3. unfold w3, calculate_resistance, try_except.
  cbn [Nat.add] in *. rewrite Hc. run_io.
  rewrite H1. cbn [script clock trace tick record]. rewrite H2.
  cbn [script clock trace tick record]. rewrite H3.
  destruct (QueryValue (strip reply)) as [v|e] eqn:Hq.
  - unfold float_truediv. rewrite <- float_eq_zero_is_zero, Hc.
    cbn [script clock trace tick record].
    destruct (script w (S (S (S (clock w))))) as [line|e]; [reflexivity|].
    destruct e; reflexivity.
  - pose proof (QueryValue_error _ Hq) as He.
    destruct e; try discriminate; reflexivity.
Qed.

(** C10 as stated fails: an interrupt during the pause is not an
    [Exception] and leaves [calculate_resistance] uncaught. *)
Lemma calculate_resistance_interrupt_counterexample :
  calculate_resistance (float_literal "0.5") interrupted_world =
  (Raises KeyboardInterrupt,
   mkWorld (script interrupted_world) 2
     [EvWrite (lit "PACU MEAN,C1"); EvSleep 1000]).
Proof. vm_compute. reflexivity. Qed.

(** C10, as amended: [calculate_resistance] never propagates an exception
    other than [KeyboardInterrupt], which no clause of it catches.  On each
    failure path, a zero current, a call that fails with an exception of
    class [Exception], a malformed response, it prints one error line and
    returns [None]; the return value is the same in all of them. *)
Theorem calculate_resistance_returns_None (current : float) (w : world) :
  fst (calculate_resistance current w) <> Running /\
  (forall e, fst (calculate_resistance current w) = Raises e ->
             e = KeyboardInterrupt) /\
  (float_eq_zero current = true ->
   calculate_resistance current w =
   (Returns None, record (EvPrint (MsgGeneral ValueError)) w)) /\
  (forall e i,
      float_eq_zero current = false -> is_Exception e = true -> i < 3 ->
      (forall j, j < i -> exists r, script w (j + clock w) = Reply r) ->
      script w (i + clock w) = Fails e ->
      exists w',
        calculate_resistance current w =
        (Returns None, record (EvPrint (error_message e)) w')) /\
  (forall s1 s2 reply e,
      float_eq_zero current = false ->
      script w (clock w) = Reply s1 ->
      script w (1 + clock w) = Reply s2 ->
      script w (2 + clock w) = Reply reply ->
      QueryValue (strip reply) = Raise e ->
      exists w',
        calculate_resistance current w =
        (Returns None, record (EvPrint (MsgGeneral ValueError)) w')).
Proof.
  assert (Hzero : float_eq_zero current = true ->
                  calculate_resistance current w =
                  (Returns None, record (EvPrint (MsgGeneral ValueError)) w)).
  { intros Hc. unfold calculate_resistance, try_except. rewrite Hc.
    reflexivity. }
  assert (Hcall : forall e i,
             float_eq_zero current = false -> i < 3 ->
             (forall j, j < i -> exists r, script w (j + clock w) = Reply r) ->
             script w (i + clock w) = Fails e ->
             exists w', calculate_resistance current w =
                        match report (@None float) e with
                        | Some handler => handler w'
                        | None => (Raises e, w')
                        end).
  { intros e i Hc Hi Hprev Hfail.
    unfold calculate_resistance, try_except. rewrite Hc. run_io.
    destruct i as [|[|[|i]]]; [| | |lia]; cbn [Nat.add] in *.
    - rewrite Hfail. eauto.
    - destruct (Hprev 0) as [r0 H0]; [lia|]. cbn [Nat.add] in H0.
      rewrite H0. cbn [script clock trace tick record]. rewrite Hfail. eauto.
    - destruct (Hprev 0) as [r0 H0]; [lia|]. cbn [Nat.add] in H0.
      destruct (Hprev 1) as [r1 H1]; [lia|]. cbn [Nat.add] in H1.
      rewrite H0. cbn [script clock trace tick record]. rewrite H1.
      cbn [script clock trace tick record]. rewrite Hfail. eauto. }
  assert (Hends : fst (calculate_resistance current w) <> Running /\
                  forall e, fst (calculate_resistance current w) = Raises e ->
                            e = KeyboardInterrupt).
  { destruct (float_eq_zero current) eqn:Hc.
    - rewrite (Hzero eq_refl). split; [discriminate|]. intros e H. discriminate.
    - destruct (script w (clock w)) as [s1|e1] eqn:H1.
      2:{ destruct (Hcall e1 0 eq_refl) as [w' ->]; [lia | intros j Hj; lia
                                                      | exact H1 |].
          destruct e1; cbn; split; try discriminate; intros e H;
            inversion H; reflexivity || discriminate. }
      destruct (script w (1 + clock w)) as [s2|e2] eqn:H2.
      2:{ destruct (Hcall e2 1 eq_refl) as [w' ->]; [lia | | exact H2 |].
          - intros j Hj. assert (j = 0) as -> by lia. eauto.
          - destruct e2; cbn; split; try discriminate; intros e H;
              inversion H; reflexivity || discriminate. }
      destruct (script w (2 + clock w)) as [s3|e3] eqn:H3.
      2:{ destruct (Hcall e3 2 eq_refl) as [w' ->]; [lia | | exact H3 |].
          - intros j Hj.
            assert (j = 0 \/ j = 1) as [-> | ->] by lia; eauto.
          - destruct e3; cbn; split; try discriminate; intros e H;
              inversion H; reflexivity || discriminate. }
      rewrite (@calculate_resistance_replies current w _ _ _ Hc H1 H2 H3).
      destruct (QueryValue (strip s3)); [|cbn; split; discriminate].
      destruct (script w (3 + clock w)) as [line|e4];
        [cbn; split; discriminate|].
      destruct e4; cbn; split; try discriminate; intros e H;
        inversion H; reflexivity. }
  destruct Hends as [Hrun Hraise].
  split; [exact Hrun|]. split; [exact Hraise|]. split; [exact Hzero|]. split.
  - intros e i Hc He Hi Hprev Hfail.
    destruct (Hcall e i Hc Hi Hprev Hfail) as [w' Heq].
    exists w'. rewrite Heq. destruct e; try discriminate; reflexivity.
  - intros s1 s2 reply e Hc H1 H2 H3 Hq.
    rewrite (@calculate_resistance_replies current w _ _ _ Hc H1 H2 H3), Hq. eauto.
Qed.

Lemma calculate_resistance_returns_None_witness :
  calculate_resistance (float_literal "0.0") (scripted [] ok) =
  (Returns None, record (EvPrint (MsgGeneral ValueError)) (scripted [] ok)) /\
  (exists w',
      calculate_resistance (float_literal "0.5")
        (scripted [ok; ok; Fails VisaIOError] ok) =
      (Returns None, record (EvPrint (error_message VisaIOError)) w')) /\
  (exists w',
      calculate_resistance (float_literal "0.5")
        (scripted [ok; ok; Reply (lit "C1,BADVAL")] ok) =
      (Returns None, record (EvPrint (MsgGeneral ValueError)) w')).
Proof.
  split; [|split].
  - apply (proj1 (proj2 (proj2
             (calculate_resistance_returns_None (float_literal "0.0")
                (scripted [] ok))))).
    reflexivity.
  - apply (proj1 (proj2 (proj2 (proj2
             (calculate_resistance_returns_None (float_literal "0.5")
                (scripted [ok; ok; Fails VisaIOError] ok)))))
             VisaIOError 2).
    + reflexivity.
    + reflexivity.
    + lia.
    + intros j Hj. destruct j as [|[|j]]; [exists []; reflexivity.. | lia].
    + reflexivity.
  - apply (proj2 (proj2 (proj2 (proj2
             (calculate_resistance_returns_None (float_literal "0.5")
                (scripted [ok; ok; Reply (lit "C1,BADVAL")] ok)))))
             [] [] (lit "C1,BADVAL") ValueError).
    + reflexivity.
    + reflexivity.
    + reflexivity.
    + reflexivity.
    + vm_compute. reflexivity.
Defined.

(** * Further properties of the parsing step *)

Lemma before_sep_app (sep : ascii) (a b : str) :
  ~ In sep a -> before_sep sep (a ++ sep :: b) = a.
Proof.
  induction a as [|c t IH]; simpl; intros H.
  - now rewrite Ascii.eqb_refl.
  - destruct (Ascii.eqb_spec c sep) as [->|_]; [exfalso; auto|].
    f_equal. apply IH. tauto.
Qed.

Lemma replace_before_sep_insert (a b : str) :
  replace letter_V [] (before_sep comma (a ++ letter_V :: b)) =
  replace letter_V [] (before_sep comma (a ++ b)).
Proof.
  induction a as [|c t IH]; simpl.
  - reflexivity.
  - destruct (Ascii.eqb c comma); [reflexivity|].
    simpl. now rewrite IH.
Qed.

Lemma in_replace_other (c : ascii) (s : str) :
  c <> letter_V -> In c s -> In c (replace letter_V [] s).
Proof.
  intros Hc. induction s as [|x t IH]; simpl; [tauto|].
  intros [->|Hin].
  - destruct (Ascii.eqb_spec c letter_V) as [->|_]; [congruence|].
    now left.
  - apply in_or_app. right. now apply IH.
Qed.

(** X1: the channel prefix of a response is never examined: two responses
    that differ only in their text before the first comma parse alike,
    whether to a value or to an error. *)
Theorem QueryValue_ignores_prefix (ch ch' tail : str) :
  ~ In comma ch -> ~ In comma ch' ->
  QueryValue (ch ++ comma :: tail) = QueryValue (ch' ++ comma :: tail).
Proof.
  intros H H'. rewrite !QueryValue_unfold.
  now rewrite !after_sep_app by assumption.
Qed.

Lemma QueryValue_ignores_prefix_witness :
  QueryValue (lit "C1" ++ comma :: lit "0.5V") =
  QueryValue (lit "channel 2" ++ comma :: lit "0.5V").
Proof.
  apply QueryValue_ignores_prefix; vm_compute; intuition discriminate.
Defined.

(** X2: whatever follows a second comma is ignored: only the text between
    the first two commas is parsed. *)
Theorem QueryValue_ignores_later_fields (ch seg rest : str) :
  ~ In comma ch -> ~ In comma seg ->
  QueryValue (ch ++ comma :: seg ++ comma :: rest) =
  QueryValue (ch ++ comma :: seg).
Proof.
  intros Hch Hseg. rewrite !QueryValue_unfold.
  rewrite !after_sep_app by assumption.
  now rewrite before_sep_app, before_sep_notin by assumption.
Qed.

Lemma QueryValue_ignores_later_fields_witness :
  QueryValue (lit "C1" ++ comma :: lit "0.5V" ++ comma :: lit "junk,more") =
  QueryValue (lit "C1" ++ comma :: lit "0.5V").
Proof.
  apply QueryValue_ignores_later_fields; vm_compute; intuition discriminate.
Defined.

(** X3: a capital [V] may stand anywhere after the first comma, any number
    of times, or be missing: inserting one never changes the result. *)
Theorem QueryValue_ignores_V (ch a b : str) :
  ~ In comma ch ->
  QueryValue (ch ++ comma :: a ++ letter_V :: b) =
  QueryValue (ch ++ comma :: a ++ b).
Proof.
  intros Hch. rewrite !QueryValue_unfold. rewrite !after_sep_app by assumption.
  now rewrite replace_before_sep_insert.
Qed.

Lemma QueryValue_ignores_V_witness :
  QueryValue (lit "C1" ++ comma :: lit "0.5" ++ letter_V :: []) =
  QueryValue (lit "C1" ++ comma :: lit "0.5" ++ []).
Proof.
  apply QueryValue_ignores_V. vm_compute. intuition discriminate.
Defined.

(** X4: any character between the first two commas that is neither a
    capital [V] nor a character of a float text, such as a lower-case [v],
    another unit letter or a star, makes the parsing step raise
    [ValueError]. *)
Theorem QueryValue_stray_character (ch seg rest : str) (c : ascii) :
  ~ In comma ch -> ~ In comma seg ->
  In c seg -> float_char c = false -> c <> letter_V ->
  QueryValue (ch ++ comma :: seg) = Raise ValueError /\
  QueryValue (ch ++ comma :: seg ++ comma :: rest) = Raise ValueError.
Proof.
  intros Hch Hseg Hin Hc HV.
  assert (H : python_float (replace letter_V [] seg) = Raise ValueError).
  { destruct (python_float (replace letter_V [] seg)) as [x|e] eqn:Hf.
    - exfalso. apply (@python_float_notin _ _ _ Hc Hf).
      now apply in_replace_other.
    - now rewrite (python_float_error _ Hf). }
  rewrite !QueryValue_unfold, !after_sep_app by assumption.
  now rewrite before_sep_app, before_sep_notin by assumption.
Qed.

Lemma QueryValue_stray_character_witness :
  QueryValue (lit "C1" ++ comma :: lit "0.5v") = Raise ValueError /\
  QueryValue (lit "C1" ++ comma :: lit "0.5v" ++ comma :: lit "x")
    = Raise ValueError.
Proof.
  apply (@QueryValue_stray_character (lit "C1") (lit "0.5v") (lit "x")
           "v"%char).
  - vm_compute. intuition discriminate.
  - vm_compute. intuition discriminate.
  - vm_compute. tauto.
  - reflexivity.
  - discriminate.
Defined.

(** * Further properties of the arithmetic *)

Lemma binary_round_aux_opp (s : bool) (m e : Z) (l : location) :
  binary_round_aux prec emax (negb s) m e l =
  SFopp (binary_round_aux prec emax s m e l).
Proof.
  unfold binary_round_aux.
  destruct (shr_fexp prec emax m e l) as [mrs' e'].
  destruct (shr_fexp prec emax _ e' loc_Exact) as [mrs'' e''].
  destruct (shr_m mrs''); [reflexivity | | reflexivity].
  now destruct (e'' <=? emax - prec)%Z.
Qed.

Lemma toMillivolts_opp (v : float) :
  toMillivolts (SFopp v) = SFopp (toMillivolts v).
Proof.
  unfold toMillivolts, float_mul.
  destruct v as [s|s| |s m e]; try reflexivity.
  - now destruct s.
  - now destruct s.
  - change thousand with (S754_finite false 8796093022208000 (-43)).
    cbn [SFmul SFopp]. rewrite !xorb_false_r. apply binary_round_aux_opp.
Qed.

Lemma SFdiv_opp_opp (x y : float) :
  SFdiv prec emax (SFopp x) (SFopp y) = SFdiv prec emax x y.
Proof.
  destruct x as [sx|sx| |sx mx ex], y as [sy|sy| |sy my ey];
    cbn [SFdiv SFopp]; try reflexivity;
    try (now destruct sx, sy).
Qed.

(** X5: reversing the polarity of both channels leaves the resistance
    unchanged: negating a voltage negates its value in millivolts, and the
    resistance expression gives the same result, or the same division
    error, for the two negated means. *)
Theorem ComputeResistance_polarity (x y r : float) :
  toMillivolts (SFopp x) = SFopp (toMillivolts x) /\
  ComputeResistance (toMillivolts (SFopp x)) (toMillivolts (SFopp y)) r =
  ComputeResistance (toMillivolts x) (toMillivolts y) r.
Proof.
  split; [apply toMillivolts_opp|].
  rewrite !toMillivolts_opp. unfold ComputeResistance, float_truediv.
  assert (Hz : float_is_zero (SFopp (toMillivolts y)) =
               float_is_zero (toMillivolts y))
    by (destruct (toMillivolts y); reflexivity).
  rewrite Hz. destruct (float_is_zero (toMillivolts y)); [reflexivity|].
  cbn [rbind]. now rewrite SFdiv_opp_opp.
Qed.

(** * Further properties of the polling loop *)

(** X6: the [try] block of an iteration yields values exactly when the
    four texts parse and the mean of channel 2 is not a zero; otherwise it
    raises the parse error of the first text that fails, and
    [ZeroDivisionError] only when all four texts parse.  It raises nothing
    else. *)
Theorem extract_values_outcome (R : float) (a b c d : str) :
  match extract_values R a b c d with
  | Ok (ma, mb, mc, md, r) =>
      exists va vb vc vd,
        QueryValue a = Ok va /\ QueryValue b = Ok vb /\
        QueryValue c = Ok vc /\ QueryValue d = Ok vd /\
        ma = toMillivolts va /\ mb = toMillivolts vb /\
        mc = toMillivolts vc /\ md = toMillivolts vd /\
        float_is_zero md = false /\
        r = float_mul (SFdiv prec emax mb md) R
  | Raise ZeroDivisionError =>
      exists va vb vc vd,
        QueryValue a = Ok va /\ QueryValue b = Ok vb /\
        QueryValue c = Ok vc /\ QueryValue d = Ok vd /\
        float_is_zero (toMillivolts vd) = true
  | Raise e =>
      is_ParseError e = true /\
      (QueryValue a = Raise e \/
       (exists va, QueryValue a = Ok va) /\
       (QueryValue b = Raise e \/
        (exists vb, QueryValue b = Ok vb) /\
        (QueryValue c = Raise e \/
         (exists vc, QueryValue c = Ok vc) /\ QueryValue d = Raise e)))
  end.
Proof.
  unfold extract_values, ComputeResistance, float_truediv.
  destruct (QueryValue a) as [va|ea] eqn:Ha; cbn [rbind].
  2:{ pose proof (QueryValue_error _ Ha) as He.
      destruct ea; try discriminate; split; auto. }
  destruct (QueryValue b) as [vb|eb] eqn:Hb; cbn [rbind].
  2:{ pose proof (QueryValue_error _ Hb) as He.
      destruct eb; try discriminate; split; eauto. }
  destruct (QueryValue c) as [vc|ec] eqn:Hc; cbn [rbind].
  2:{ pose proof (QueryValue_error _ Hc) as He.
      destruct ec; try discriminate; split; eauto 10. }
  destruct (QueryValue d) as [vd|ed] eqn:Hd; cbn [rbind].
  2:{ pose proof (QueryValue_error _ Hd) as He.
      destruct ed; try discriminate; split; eauto 10. }
  destruct (float_is_zero (toMillivolts vd)) eqn:Hz; cbn [rbind].
  - exists va, vb, vc, vd. auto.
  - exists va, vb, vc, vd. repeat split; auto.
Qed.

Lemma extract_values_raise_cases (R : float) (a b c d : str) (e : exn) :
  extract_values R a b c d = Raise e ->
  is_ParseError e = true \/
  (e = ZeroDivisionError /\
   exists vd, QueryValue d = Ok vd /\ float_is_zero (toMillivolts vd) = true).
Proof.
  intros H.
  unfold extract_values, ComputeResistance, float_truediv in H.
  destruct (QueryValue a) as [va|ea] eqn:Ha; cbn [rbind] in H.
  2:{ inversion H; subst. left. exact (QueryValue_error _ Ha). }
  destruct (QueryValue b) as [vb|eb] eqn:Hb; cbn [rbind] in H.
  2:{ inversion H; subst. left. exact (QueryValue_error _ Hb). }
  destruct (QueryValue c) as [vc|ec] eqn:Hc; cbn [rbind] in H.
  2:{ inversion H; subst. left. exact (QueryValue_error _ Hc). }
  destruct (QueryValue d) as [vd|ed] eqn:Hd; cbn [rbind] in H.
  2:{ inversion H; subst. left. exact (QueryValue_error _ Hd). }
  destruct (float_is_zero (toMillivolts vd)) eqn:Hz; cbn [rbind] in H;
    [|discriminate].
  inversion H; subst. right. split; [reflexivity|]. eauto.
Qed.

Lemma count_record (p : event -> bool) (ev : event) (w : world) :
  count p (record ev w) = count p w + (if p ev then 1 else 0).
Proof.
  unfold count, record. cbn [trace]. rewrite filter_app, length_app.
  simpl. now destruct (p ev).
Qed.

Lemma count_tick (p : event -> bool) (ev : event) (w : world) :
  count p (tick ev w) = count p w + (if p ev then 1 else 0).
Proof. exact (count_record p ev w). Qed.

(** An iteration in a world that answers every call without a zero
    reading ends normally and leaves the script as it is. *)
Lemma measurement_body_goes_on (R : float) (w : world) :
  answers_without_zero w ->
  exists w', measurement_body R w = (Returns tt, w') /\ script w' = script w.
Proof.
  intros Hw.
  destruct (Hw (clock w)) as [r1 [H1 _]].
  destruct (Hw (1 + clock w)) as [r2 [H2 _]].
  destruct (Hw (2 + clock w)) as [r3 [H3 _]].
  destruct (Hw (3 + clock w)) as [r4 [H4 Hnz]].
  rewrite (measurement_body_replies R w H1 H2 H3 H4).
  destruct (extract_values R (strip r1) (strip r2) (strip r3) (strip r4))
    as [[[[[ma mb] mc] md] r]|e] eqn:Hx.
  - destruct (Hw (4 + clock w)) as [line [H5 _]].
    destruct (Hw (5 + clock w)) as [pause [H6 _]].
    erewrite report_values_reading; [| exact Hx | exact H5 | exact H6].
    eexists. split; reflexivity.
  - destruct (extract_values_raise_cases _ _ _ _ _ Hx) as [Hp|[_ [vd [Hd Hz]]]].
    + rewrite (report_values_parse_error _ _ _ _ _ _ Hx Hp).
      eexists. split; reflexivity.
    + rewrite (Hnz vd Hd) in Hz. discriminate.
Qed.

(** X7: the loop of [continuous_measurement] stops only on a call that
    fails or on a zero reading: when every call is answered, the queries
    and the pauses as well as the printing of each reading, and no answer
    parses to a voltage that is zero in millivolts, the loop is still
    running after any number of iterations, well-formed replies or not. *)
Theorem polling_never_ends (R : float) (fuel : nat) (w : world) :
  answers_without_zero w ->
  fst (while_true fuel (measurement_body R) w) = Running.
Proof.
  revert w. induction fuel as [|fuel IH]; intros w Hw; [reflexivity|].
  destruct (measurement_body_goes_on R Hw) as [w' [Hbody Hs]].
  rewrite (while_true_step fuel _ _ Hbody). apply IH.
  intros n. unfold answers_without_zero in Hw. rewrite Hs. apply Hw.
Qed.

Lemma constant_world_answers (r : string) (n : nat) :
  script (constant_world r) n = Reply (lit r).
Proof. unfold constant_world, scripted. cbn [script]. now destruct n. Qed.

Lemma polling_never_ends_witness :
  fst (while_true 3 (measurement_body R_ref) (constant_world "C1,0.5V"))
  = Running.
Proof.
  apply polling_never_ends. intros n. exists (lit "C1,0.5V"). split.
  - apply constant_world_answers.
  - intros v Hv. vm_compute in Hv. inversion Hv; subst. reflexivity.
Defined.

(** X8: a skipped iteration does not pause.  With an instrument whose
    every answer is malformed, [n] iterations issue [4 n] queries one after
    the other, print [n] reports and never call [time.sleep]; the loop is
    still running. *)
Theorem malformed_replies_spin (R : float) (fuel : nat) (w : world) :
  always_malformed w ->
  exists w',
    while_true fuel (measurement_body R) w = (Running, w') /\
    clock w' = 4 * fuel + clock w /\
    count is_query w' = 4 * fuel + count is_query w /\
    count is_print w' = fuel + count is_print w /\
    count is_sleep w' = count is_sleep w.
Proof.
  revert w. induction fuel as [|fuel IH]; intros w Hw.
  - exists w. repeat split; reflexivity.
  - destruct (Hw (clock w)) as [r1 [e1 [H1 Hbad]]].
    destruct (Hw (1 + clock w)) as [r2 [e2 [H2 _]]].
    destruct (Hw (2 + clock w)) as [r3 [e3 [H3 _]]].
    destruct (Hw (3 + clock w)) as [r4 [e4 [H4 _]]].
    destruct (@extract_values_parse_failure R (strip r1) (strip r2)
                (strip r3) (strip r4)) as [e [Hx Hp]]; [left; eauto|].
    set (w1 := record
                 (EvPrint (MsgUnexpected (strip r1) (strip r2) (strip r3)
                             (strip r4))) (after_queries w)).
    assert (Hbody : measurement_body R w = (Returns tt, w1)).
    { rewrite (measurement_body_replies R w H1 H2 H3 H4).
      exact (report_values_parse_error _ _ _ _ _ _ Hx Hp). }
    destruct (IH w1) as [w' [Hloop [Hc [Hq [Hpr Hsl]]]]].
    { intros n. apply Hw. }
    exists w'. rewrite (while_true_step fuel _ _ Hbody).
    split; [exact Hloop|].
    unfold w1, after_queries in Hc, Hq, Hpr, Hsl.
    rewrite !count_record, !count_tick in Hq, Hpr, Hsl.
    cbn [is_query is_print is_sleep clock record tick] in *.
    repeat split; lia.
Qed.

Lemma malformed_replies_spin_witness :
  exists w',
    while_true 3 (measurement_body R_ref) (constant_world "no reading")
    = (Running, w') /\
    clock w' = 4 * 3 + clock (constant_world "no reading") /\
    count is_query w' = 4 * 3 + count is_query (constant_world "no reading") /\
    count is_print w' = 3 + count is_print (constant_world "no reading") /\
    count is_sleep w' = count is_sleep (constant_world "no reading").
Proof.
  apply malformed_replies_spin. intros n.
  exists (lit "no reading"), IndexError. split.
  - apply constant_world_answers.
  - vm_compute. reflexivity.
Defined.

(** ** How the polling functions end *)

Lemma while_true_never_returns (fuel : nat) (body : M unit) (w : world) :
  fst (while_true fuel body w) <> Returns tt.
Proof.
  revert w. induction fuel as [|fuel IH]; intros w; simpl; [discriminate|].
  unfold bind. destruct (body w) as [[[]|e|] w']; cbn [fst];
    [apply IH | discriminate..].
Qed.

Lemma bind_never_returns {A B} (m : M A) (k : A -> M B) (w : world) (b : B) :
  (forall a w', fst (k a w') <> Returns b) -> fst (bind m k w) <> Returns b.
Proof.
  intros Hk. unfold bind.
  destruct (m w) as [[a|e|] w']; cbn [fst]; [apply Hk | discriminate..].
Qed.

Lemma report_or_stop_prints (e : exn) :
  report_or_stop e =
  Some (fun w => (Returns tt, record (EvPrint (stop_message e)) w)).
Proof. destruct e; reflexivity. Qed.

Lemma measurement_block_never_returns (fuel : nat) (w : world) :
  fst (measurement_block fuel w) <> Returns tt.
Proof.
  unfold measurement_block.
  apply bind_never_returns. intros _ w2.
  apply bind_never_returns. intros _ w3.
  apply bind_never_returns. intros _ w4.
  apply bind_never_returns. intros _ w5.
  apply while_true_never_returns.
Qed.

Section RaisesFromCalls.

Context {A B : Type}.

Lemma from_calls_ret (a : A) : raises_from_calls (ret a).
Proof. intros w. split; [reflexivity | discriminate]. Qed.

Lemma from_calls_bind (m : M A) (k : A -> M B) :
  raises_from_calls m -> (forall a, raises_from_calls (k a)) ->
  raises_from_calls (bind m k).
Proof.
  intros Hm Hk w. unfold bind. destruct (Hm w) as [Hs Hr].
  destruct (m w) as [[a|e|] w']; cbn [fst snd] in *.
  - destruct (Hk a w') as [Hs' Hr']. split; [congruence|].
    intros e He. destruct (Hr' e He) as [->|[n Hn]]; [now left|].
    right. exists n. now rewrite <- Hs.
  - split; [exact Hs|]. intros e' He'. inversion He'; subst. now apply Hr.
  - split; [exact Hs | discriminate].
Qed.

End RaisesFromCalls.

Lemma from_calls_call (ev : event) : raises_from_calls (call ev).
Proof.
  intros w. unfold call.
  destruct (script w (clock w)) as [s|e] eqn:H; cbn [fst snd].
  - split; [reflexivity | discriminate].
  - split; [reflexivity|]. intros e' He'. inversion He'; subst. eauto.
Qed.

Lemma from_calls_command (ev : event) :
  raises_from_calls (call ev ;; ret tt)%io.
Proof.
  apply from_calls_bind; [apply from_calls_call | intros _; apply from_calls_ret].
Qed.

Lemma from_calls_report_values (R : float) (a b c d : str) :
  raises_from_calls (report_values R a b c d).
Proof.
  unfold report_values. apply from_calls_bind.
  - intros w. unfold try_except, bind, lift, ret, raise, print.
    destruct (extract_values R a b c d) as [v|e] eqn:Hx.
    + split; [reflexivity | discriminate].
    + destruct (extract_values_raise_cases _ _ _ _ _ Hx) as [Hp|[-> _]].
      * destruct e; try discriminate Hp; cbn; split;
          (reflexivity || discriminate).
      * cbn. split; [reflexivity|]. intros e He. inversion He. now left.
  - intros [[[[[v1 v2] v3] v4] v5]|]; [|apply from_calls_ret].
    unfold print_unicode, sleep.
    apply from_calls_bind; [apply from_calls_command | intros _].
    apply from_calls_command.
Qed.

Lemma from_calls_measurement_body (R : float) :
  raises_from_calls (measurement_body R).
Proof.
  unfold measurement_body, inst_query.
  repeat (apply from_calls_bind; [apply from_calls_call | intros ?]).
  apply from_calls_report_values.
Qed.

Lemma from_calls_while_true (fuel : nat) (body : M unit) :
  raises_from_calls body -> raises_from_calls (while_true fuel body).
Proof.
  intros Hb. induction fuel as [|fuel IH]; simpl.
  - intros w. split; [reflexivity | discriminate].
  - apply from_calls_bind; auto.
Qed.

Lemma from_calls_measurement_block (fuel : nat) :
  raises_from_calls (measurement_block fuel).
Proof.
  unfold measurement_block, inst_write.
  repeat (apply from_calls_bind; [apply from_calls_command | intros ?]).
  apply from_calls_while_true, from_calls_measurement_body.
Qed.

(** X9: [continuous_measurement] never propagates an exception, not even
    the interrupt.  Its [try] block cannot end normally; when the block
    raises [e], the function prints the line for that very [e] as its last
    act, the stop notice for an interrupt, the VISA line for a
    [VisaIOError], the general line otherwise, and returns; and [e] is the
    exception of a call that failed or the [ZeroDivisionError] of a zero
    reading. *)
Theorem continuous_measurement_ends_with_a_line (fuel : nat) (w : world) :
  match measurement_block fuel w with
  | (Returns _, _) => False
  | (Raises e, w1) =>
      continuous_measurement fuel w =
      (Returns tt, record (EvPrint (stop_message e)) w1) /\
      (e = ZeroDivisionError \/ exists n, script w n = Fails e)
  | (Running, w1) => continuous_measurement fuel w = (Running, w1)
  end.
Proof.
  pose proof (measurement_block_never_returns fuel w) as Hnr.
  destruct (from_calls_measurement_block fuel w) as [_ Hfrom].
  change (continuous_measurement fuel w)
    with (try_except (measurement_block fuel) report_or_stop w).
  unfold try_except.
  destruct (measurement_block fuel w) as [[[]|e|] w1]; cbn [fst] in *.
  - now destruct Hnr.
  - split; [now rewrite report_or_stop_prints | now apply Hfrom].
  - reflexivity.
Qed.

(** X10: in [continuous_dc_average] a malformed reply is not skipped: the
    parse error ends the loop at its first occurrence, the general error
    line is printed and the function returns. *)
Theorem dc_average_parse_failure_ends (fuel : nat) (w : world)
        (s reply : str) (e : exn) :
  script w (clock w) = Reply s ->
  script w (1 + clock w) = Reply reply ->
  QueryValue (strip reply) = Raise e ->
  continuous_dc_average (S fuel) w =
  (Returns tt,
   record (EvPrint (MsgGeneral e))
     (tick (EvQuery (lit "C1:PAVA? MEAN"))
        (tick (EvWrite (lit "PACU MEAN,C1")) w))).
Proof.
  intros H1 H2 Hq. pose proof (QueryValue_error _ Hq) as He.
  unfold continuous_dc_average, try_except. cbn [while_true Nat.add] in *.
  unfold dc_average_body. run_io. rewrite H1.
  cbn [script clock trace tick record]. rewrite H2, Hq. cbn [rbind].
  destruct e; try discriminate; reflexivity.
Qed.

Lemma dc_average_parse_failure_ends_witness :
  continuous_dc_average 5 (scripted [ok; Reply (lit "C1,BADVAL")] ok) =
  (Returns tt,
   record (EvPrint (MsgGeneral ValueError))
     (tick (EvQuery (lit "C1:PAVA? MEAN"))
        (tick (EvWrite (lit "PACU MEAN,C1"))
           (scripted [ok; Reply (lit "C1,BADVAL")] ok)))).
Proof.
  apply (@dc_average_parse_failure_ends 4
           (scripted [ok; Reply (lit "C1,BADVAL")] ok) [] (lit "C1,BADVAL")).
  - reflexivity.
  - reflexivity.
  - vm_compute. reflexivity.
Defined.

(** ** Replies with surrounding white space *)

Lemma lstrip_spaces_app (a b : str) :
  forallb is_py_space a = true -> lstrip (a ++ b) = lstrip b.
Proof.
  induction a as [|c t IH]; simpl; [reflexivity|].
  rewrite andb_true_iff. intros [Hc Ht]. rewrite Hc. now apply IH.
Qed.

Lemma forallb_rev_true {A} (p : A -> bool) (l : list A) :
  forallb p l = true -> forallb p (rev l) = true.
Proof.
  rewrite !forallb_forall. intros H x Hx. apply H. now apply in_rev.
Qed.

Lemma rstrip_app_spaces (s ws : str) :
  forallb is_py_space ws = true -> rstrip (s ++ ws) = rstrip s.
Proof.
  intros H. unfold rstrip. rewrite rev_app_distr.
  now rewrite lstrip_spaces_app by now apply forallb_rev_true.
Qed.

(** The [strip()] applied to a reply removes the line end that follows the
    unit letter. *)
Lemma strip_reply_line (ch body ws : str) :
  forallb is_py_space ws = true ->
  strip (ch ++ comma :: body ++ letter_V :: ws) =
  lstrip ch ++ comma :: body ++ [letter_V].
Proof.
  intros Hws. unfold strip.
  rewrite lstrip_app_nonspace by reflexivity.
  replace (lstrip ch ++ comma :: body ++ letter_V :: ws)
    with ((lstrip ch ++ comma :: body ++ [letter_V]) ++ ws).
  - rewrite rstrip_app_spaces by exact Hws.
    replace (lstrip ch ++ comma :: body ++ [letter_V])
      with ((lstrip ch ++ comma :: body) ++ [letter_V])
      by (rewrite <- app_assoc; reflexivity).
    now apply rstrip_snoc_nonspace.
  - rewrite <- app_assoc. simpl. now rewrite <- app_assoc.
Qed.

Lemma QueryValue_reply_line (ch v ws : str) (x : float) :
  ~ In comma ch -> python_float v = Ok x ->
  forallb is_py_space ws = true ->
  QueryValue (strip (ch ++ comma :: v ++ letter_V :: ws)) = Ok x.
Proof.
  intros Hch Hv Hws. rewrite strip_reply_line by exact Hws.
  rewrite QueryValue_volts.
  - exact Hv.
  - intros H. apply Hch. now apply lstrip_incl.
  - eapply python_float_notin; eauto.
  - eapply python_float_notin; eauto.
Qed.

(** X11: an iteration of [continuous_dc_average] that receives a reply
    line [ch,vV] followed by any white space, such as the line end the
    instrument sends, prints the value of [v] times 1000 and pauses for a
    tenth of a second. *)
Theorem dc_average_reading (w : world) (ch v ws pause : str) (x : float) :
  ~ In comma ch -> python_float v = Ok x ->
  forallb is_py_space ws = true ->
  script w (clock w) = Reply (ch ++ comma :: v ++ letter_V :: ws) ->
  script w (1 + clock w) = Reply pause ->
  dc_average_body w =
  (Returns tt,
   tick (EvSleep 100)
     (record (EvPrint (MsgMean (float_mul x thousand)))
        (tick (EvQuery (lit "C1:PAVA? MEAN")) w))).
Proof.
  intros Hch Hv Hws H1 H2. unfold dc_average_body. run_io.
  cbn [Nat.add] in H2. rewrite H1.
  rewrite (@QueryValue_reply_line ch v ws x Hch Hv Hws). cbn [rbind].
  cbn [script clock trace tick record]. now rewrite H2.
Qed.

Lemma dc_average_reading_witness :
  dc_average_body
    (scripted [Reply (lit "C1" ++ comma :: lit "1.234" ++ letter_V
                       :: ["010"%char])] ok) =
  (Returns tt,
   tick (EvSleep 100)
     (record
        (EvPrint
           (MsgMean (float_mul (S754_finite false 5557441940175192 (-52))
                       thousand)))
        (tick (EvQuery (lit "C1:PAVA? MEAN"))
           (scripted [Reply (lit "C1" ++ comma :: lit "1.234" ++ letter_V
                               :: ["010"%char])] ok)))).
Proof.
  apply (@dc_average_reading _ (lit "C1") (lit "1.234") ["010"%char] []).
  - vm_compute. intuition discriminate.
  - vm_compute. reflexivity.
  - reflexivity.
  - reflexivity.
  - reflexivity.
Defined.

(** * Further properties of [calculate_resistance] *)

(** X12: with a current that is not zero and an instrument that answers
    the command, the pause and the query, a reply line [ch,vV] followed by
    any white space makes [calculate_resistance] compute the float quotient
    of the value of [v] by the current, after the write, the pause of one
    second and the query.  When the result line is printed the quotient is
    returned; when the printing raises an exception of class [Exception],
    as a standard output that cannot encode the ohm sign does, the error
    line is printed and [None] is returned; an interrupt propagates. *)
Theorem calculate_resistance_reading
        (current : float) (w : world) (ch v ws s1 s2 : str) (x : float) :
  float_eq_zero current = false ->
  ~ In comma ch -> python_float v = Ok x ->
  forallb is_py_space ws = true ->
  script w (clock w) = Reply s1 ->
  script w (1 + clock w) = Reply s2 ->
  script w (2 + clock w) = Reply (ch ++ comma :: v ++ letter_V :: ws) ->
  let q := SFdiv prec emax x current in
  let w4 :=
    tick (EvPrint (MsgResistance q))
      (tick (EvQuery (lit "C1:PAVA? MEAN"))
         (tick (EvSleep 1000) (tick (EvWrite (lit "PACU MEAN,C1")) w))) in
  (forall line,
      script w (3 + clock w) = Reply line ->
      calculate_resistance current w = (Returns (Some q), w4)) /\
  (forall e,
      script w (3 + clock w) = Fails e -> is_Exception e = true ->
      calculate_resistance current w =
      (Returns None, record (EvPrint (error_message e)) w4)) /\
  (script w (3 + clock w) = Fails KeyboardInterrupt ->
   calculate_resistance current w = (Raises KeyboardInterrupt, w4)).
Proof.
  intros Hc Hch Hv Hws H1 H2 H3 q w4.
  rewrite (@calculate_resistance_replies current w _ _ _ Hc H1 H2 H3).
  rewrite (@QueryValue_reply_line ch v ws x Hch Hv Hws).
  split; [|split].
  - intros line H4. now rewrite H4.
  - intros e H4 He. now rewrite H4, He.
  - intros H4. now rewrite H4.
Qed.

Lemma calculate_resistance_reading_witness :
  let w :=
    scripted [ok; ok; Reply (lit "C1" ++ comma :: lit "0.5" ++ letter_V
                               :: ["010"%char]); Fails ValueError] ok in
  let q := SFdiv prec emax (float_literal "0.5") (float_literal "0.25") in
  let w4 :=
    tick (EvPrint (MsgResistance q))
      (tick (EvQuery (lit "C1:PAVA? MEAN"))
         (tick (EvSleep 1000) (tick (EvWrite (lit "PACU MEAN,C1")) w))) in
  (forall line,
      script w (3 + clock w) = Reply line ->
      calculate_resistance (float_literal "0.25") w = (Returns (Some q), w4)) /\
  (forall e,
      script w (3 + clock w) = Fails e -> is_Exception e = true ->
      calculate_resistance (float_literal "0.25") w =
      (Returns None, record (EvPrint (error_message e)) w4)) /\
  (script w (3 + clock w) = Fails KeyboardInterrupt ->
   calculate_resistance (float_literal "0.25") w =
   (Raises KeyboardInterrupt, w4)).
Proof.
  apply (@calculate_resistance_reading (float_literal "0.25") _ (lit "C1")
           (lit "0.5") ["010"%char] [] []).
  - reflexivity.
  - vm_compute. intuition discriminate.
  - vm_compute. reflexivity.
  - reflexivity.
  - reflexivity.
  - reflexivity.
  - reflexivity.
Defined.

(** The result line refused by the standard output: [None] is returned
    although the reply was well-formed. *)
Lemma calculate_resistance_refused_line :
  fst (calculate_resistance (float_literal "0.25")
         (scripted [ok; ok; Reply (lit "C1,0.5V"); Fails ValueError] ok))
  = Returns None.
Proof. vm_compute. reflexivity. Qed.

(** * Further properties of the session *)

Lemma keeps_calculate_resistance (current : float) :
  keeps_closes (calculate_resistance current).
Proof.
  unfold calculate_resistance. apply keeps_try_except.
  - apply keeps_bind.
    { destruct (float_eq_zero current); [apply keeps_raise | apply keeps_ret]. }
    intros _. unfold inst_write, sleep, inst_query.
    apply keeps_bind; [now apply keeps_command | intros _].
    apply keeps_bind; [now apply keeps_command | intros _].
    apply keeps_bind; [now apply keeps_call | intros reply].
    apply keeps_bind.
    { apply keeps_try_except; [apply keeps_lift|].
      intros e handler He.
      destruct e; inversion He; subst; apply keeps_raise. }
    intros v. apply keeps_bind; [apply keeps_lift | intros r].
    apply keeps_bind; [now apply keeps_command | intros _; apply keeps_ret].
  - intros e handler. apply keeps_report.
Qed.

Lemma keeps_dc_average_body : keeps_closes dc_average_body.
Proof.
  unfold dc_average_body, inst_query, sleep.
  apply keeps_bind; [now apply keeps_call | intros reply].
  apply keeps_bind; [apply keeps_lift | intros v].
  apply keeps_bind; [apply keeps_print | intros _].
  now apply keeps_command.
Qed.

(** X13: only [main] closes the session: whatever the instrument does,
    a run of [calculate_resistance], of [continuous_dc_average] or of
    [continuous_measurement] leaves the number of [close] calls as it
    was. *)
Theorem only_main_closes (current : float) (fuel : nat) (w : world) :
  closes (snd (calculate_resistance current w)) = closes w /\
  closes (snd (continuous_dc_average fuel w)) = closes w /\
  closes (snd (continuous_measurement fuel w)) = closes w.
Proof.
  split; [apply keeps_calculate_resistance|].
  split; [|apply keeps_continuous_measurement].
  unfold continuous_dc_average. apply keeps_try_except.
  - unfold inst_write.
    apply keeps_bind; [now apply keeps_command | intros _].
    apply keeps_while_true, keeps_dc_average_body.
  - apply keeps_report_or_stop.
Qed.

(** The body of the [try] block of [main] once the session is open. *)
Lemma main_body_outcome (fuel : nat) (s2 : str) (w2 : world) :
  let body :=
    try_except
      (ret s2 ;; call (EvSetTimeout 5000) ;; continuous_measurement fuel)%io
      (report tt) in
  closes (snd (body w2)) = closes w2 /\
  (forall e, fst (body w2) = Raises e ->
             e = KeyboardInterrupt /\
             script w2 (clock w2) = Fails KeyboardInterrupt).
Proof.
  intros body. split.
  - apply keeps_try_except.
    + apply keeps_bind; [apply keeps_ret | intros _].
      apply keeps_bind; [now apply keeps_call | intros _].
      apply keeps_continuous_measurement.
    + intros e handler. apply keeps_report.
  - intros e. unfold body, try_except, bind at 1, ret, bind, call.
    destruct (script w2 (clock w2)) as [s|e'] eqn:Hs.
    + pose proof (@continuous_measurement_no_raise fuel
                    (tick (EvSetTimeout 5000) w2)) as Hno.
      destruct (continuous_measurement fuel (tick (EvSetTimeout 5000) w2))
        as [[[]|e''|] w3]; cbn [fst] in *; try discriminate.
      now destruct (Hno e'').
    + destruct e'; cbn; intros H; inversion H; subst; auto.
Qed.

(** X14: once [open_resource] has returned, every run of [main] that ends
    ends with the call of [close], and this is the only [close] of the
    run, whatever happened during the polling. *)
Theorem main_releases_session (fuel : nat) (w : world) (s1 s2 : str) :
  script w (clock w) = Reply s1 ->
  script w (S (clock w)) = Reply s2 ->
  fst (main fuel w) <> Running ->
  exists w3,
    snd (main fuel w) = tick EvClose w3 /\ closes w3 = closes w.
Proof.
  intros H1 H2. rewrite (main_opened fuel w H1 H2).
  set (w2 := tick (EvOpen scope_address) (tick EvResourceManager w)).
  assert (Hw2 : closes w2 = closes w).
  { unfold w2. rewrite !closes_tick. simpl. lia. }
  destruct (main_body_outcome fuel s2 w2) as [Hkeep _].
  unfold try_finally.
  destruct (try_except _ _ w2) as [[[]|e|] w3]; cbn [fst snd] in *.
  - intros _. exists w3. split; [|lia].
    unfold inst_close. run_io. now destruct (script w3 (clock w3)).
  - intros _. exists w3. split; [|lia].
    unfold inst_close. run_io. now destruct (script w3 (clock w3)).
  - intros H. now destruct H.
Qed.

Lemma main_releases_session_witness :
  exists w3,
    snd (main 2 timeout_world) = tick EvClose w3 /\
    closes w3 = closes timeout_world.
Proof.
  apply (@main_releases_session 2 timeout_world [] []).
  - reflexivity.
  - reflexivity.
  - vm_compute. discriminate.
Defined.

(** X15: once the session is open and its timeout is set without an
    interrupt, [main] ends as the call of [close] ends: it returns when
    that call returns and propagates what that call raises, and nothing
    else; no error of the polling reaches the caller of [main]. *)
Theorem main_ends_as_close_ends (fuel : nat) (w : world) (s1 s2 : str) :
  script w (clock w) = Reply s1 ->
  script w (S (clock w)) = Reply s2 ->
  script w (S (S (clock w))) <> Fails KeyboardInterrupt ->
  fst (main fuel w) = Running \/
  exists w3, main fuel w = inst_close w3.
Proof.
  intros H1 H2 H3. rewrite (main_opened fuel w H1 H2).
  set (w2 := tick (EvOpen scope_address) (tick EvResourceManager w)).
  destruct (main_body_outcome fuel s2 w2) as [_ Hraise].
  unfold try_finally.
  destruct (try_except _ _ w2) as [[[]|e|] w3]; cbn [fst snd] in *.
  - right. exists w3.
    destruct (inst_close w3) as [[[]|e|] w4]; reflexivity.
  - destruct (Hraise e eq_refl) as [_ Hint]. now destruct H3.
  - left. reflexivity.
Qed.

Lemma main_ends_as_close_ends_witness :
  fst (main 2 timeout_world) = Running \/
  exists w3, main 2 timeout_world = inst_close w3.
Proof.
  apply (@main_ends_as_close_ends 2 timeout_world [] []).
  - reflexivity.
  - reflexivity.
  - vm_compute. discriminate.
Defined.

(** X16: whatever [open_resource] raises, the caller of [main] receives
    [UnboundLocalError] in its place, even for an interrupt: the original
    exception is printed when it is an [Exception], an interrupt leaves no
    line, and in both cases nothing is closed. *)
Theorem open_failure_is_masked (fuel : nat) (w : world) (s : str) (e : exn) :
  script w (clock w) = Reply s ->
  script w (S (clock w)) = Fails e ->
  let w2 := tick (EvOpen scope_address) (tick EvResourceManager w) in
  main fuel w =
  (Raises UnboundLocalError,
   if is_Exception e then record (EvPrint (error_message e)) w2 else w2).
Proof.
  intros H1 H2 w2. rewrite (main_not_opened fuel w H1 H2).
  unfold try_finally, try_except, bind at 1. cbn [lift raise].
  destruct e; reflexivity.
Qed.

Lemma open_failure_is_masked_witness :
  main 2 interrupted_world =
  (Raises UnboundLocalError,
   tick (EvOpen scope_address) (tick EvResourceManager interrupted_world)).
Proof.
  apply (@open_failure_is_masked 2 interrupted_world [] KeyboardInterrupt);
    reflexivity.
Defined.

(** * Failing calls during the polling *)

Ltac next_reply H :=
  rewrite H; cbn [script clock trace tick record].

(** X17: a query that fails, whichever of the four of an iteration, ends
    the loop with its exception at once: the failed query is the last call
    of the loop, it is not sent again and the remaining queries of the
    iteration are not sent. *)
Theorem failed_query_ends_polling
        (R : float) (w : world) (e : exn) (i : nat) :
  i < 4 ->
  (forall j, j < i -> exists r, script w (j + clock w) = Reply r) ->
  script w (i + clock w) = Fails e ->
  exists w',
    (forall fuel,
        while_true (S fuel) (measurement_body R) w = (Raises e, w')) /\
    clock w' = S i + clock w /\
    count is_query w' = S i + count is_query w /\
    count is_print w' = count is_print w.
Proof.
  intros Hi Hprev Hfail.
  assert (Hbody : exists w',
             measurement_body R w = (Raises e, w') /\
             clock w' = S i + clock w /\
             count is_query w' = S i + count is_query w /\
             count is_print w' = count is_print w).
  { unfold measurement_body. run_io.
    destruct i as [|[|[|[|i]]]]; [| | | |lia]; cbn [Nat.add] in *.
    - next_reply Hfail. eexists. split; [reflexivity|].
      rewrite !count_tick. cbn. repeat split; lia.
    - destruct (Hprev 0) as [r0 H0]; [lia|]. cbn [Nat.add] in H0.
      next_reply H0. next_reply Hfail. eexists. split; [reflexivity|].
      rewrite !count_tick. cbn. repeat split; lia.
    - destruct (Hprev 0) as [r0 H0]; [lia|]. cbn [Nat.add] in H0.
      destruct (Hprev 1) as [r1 H1]; [lia|]. cbn [Nat.add] in H1.
      next_reply H0. next_reply H1. next_reply Hfail.
      eexists. split; [reflexivity|].
      rewrite !count_tick. cbn. repeat split; lia.
    - destruct (Hprev 0) as [r0 H0]; [lia|]. cbn [Nat.add] in H0.
      destruct (Hprev 1) as [r1 H1]; [lia|]. cbn [Nat.add] in H1.
      destruct (Hprev 2) as [r2 H2]; [lia|]. cbn [Nat.add] in H2.
      next_reply H0. next_reply H1. next_reply H2. next_reply Hfail.
      eexists. split; [reflexivity|].
      rewrite !count_tick. cbn. repeat split; lia. }
  destruct Hbody as [w' [Hbody Hrest]]. exists w'. split; [|exact Hrest].
  intros fuel. now apply while_true_exit.
Qed.

Lemma failed_query_ends_polling_witness :
  exists w',
    (forall fuel,
        while_true (S fuel) (measurement_body R_ref)
          (scripted [Reply (lit "C1,0.5V"); Fails VisaIOError] ok)
        = (Raises VisaIOError, w')) /\
    clock w' = 2 + clock (scripted [Reply (lit "C1,0.5V"); Fails VisaIOError] ok) /\
    count is_query w' =
      2 + count is_query (scripted [Reply (lit "C1,0.5V"); Fails VisaIOError] ok) /\
    count is_print w' =
      count is_print (scripted [Reply (lit "C1,0.5V"); Fails VisaIOError] ok).
Proof.
  apply (@failed_query_ends_polling R_ref
           (scripted [Reply (lit "C1,0.5V"); Fails VisaIOError] ok)
           VisaIOError 1).
  - lia.
  - intros j Hj. destruct j as [|j]; [|lia].
    exists (lit "C1,0.5V"). reflexivity.
  - reflexivity.
Defined.

(** X18: when one of the four set-up commands of [continuous_measurement]
    fails, the commands after it are not sent and no query is made: the
    function prints the line for the exception and returns. *)
Theorem failed_setup_ends_measurement
        (fuel : nat) (w : world) (e : exn) (i : nat) :
  i < 4 ->
  (forall j, j < i -> exists r, script w (j + clock w) = Reply r) ->
  script w (i + clock w) = Fails e ->
  exists w1,
    continuous_measurement fuel w =
    (Returns tt, record (EvPrint (stop_message e)) w1) /\
    clock w1 = S i + clock w /\
    count is_query w1 = count is_query w.
Proof.
  intros Hi Hprev Hfail.
  unfold continuous_measurement, try_except. run_io.
  destruct i as [|[|[|[|i]]]]; [| | | |lia]; cbn [Nat.add] in *.
  - next_reply Hfail. rewrite report_or_stop_prints.
    eexists. split; [reflexivity|].
    rewrite !count_tick. cbn. split; lia.
  - destruct (Hprev 0) as [r0 H0]; [lia|]. cbn [Nat.add] in H0.
    next_reply H0. next_reply Hfail. rewrite report_or_stop_prints.
    eexists. split; [reflexivity|].
    rewrite !count_tick. cbn. split; lia.
  - destruct (Hprev 0) as [r0 H0]; [lia|]. cbn [Nat.add] in H0.
    destruct (Hprev 1) as [r1 H1]; [lia|]. cbn [Nat.add] in H1.
    next_reply H0. next_reply H1. next_reply Hfail.
    rewrite report_or_stop_prints.
    eexists. split; [reflexivity|].
    rewrite !count_tick. cbn. split; lia.
  - destruct (Hprev 0) as [r0 H0]; [lia|]. cbn [Nat.add] in H0.
    destruct (Hprev 1) as [r1 H1]; [lia|]. cbn [Nat.add] in H1.
    destruct (Hprev 2) as [r2 H2]; [lia|]. cbn [Nat.add] in H2.
    next_reply H0. next_reply H1. next_reply H2. next_reply Hfail.
    rewrite report_or_stop_prints.
    eexists. split; [reflexivity|].
    rewrite !count_tick. cbn. split; lia.
Qed.

Lemma failed_setup_ends_measurement_witness :
  exists w1,
    continuous_measurement 3 (scripted [ok; ok; Fails VisaIOError] ok) =
    (Returns tt, record (EvPrint (stop_message VisaIOError)) w1) /\
    clock w1 = 3 + clock (scripted [ok; ok; Fails VisaIOError] ok) /\
    count is_query w1 =
      count is_query (scripted [ok; ok; Fails VisaIOError] ok).
Proof.
  apply (@failed_setup_ends_measurement 3
           (scripted [ok; ok; Fails VisaIOError] ok) VisaIOError 2).
  - lia.
  - intros j Hj. destruct j as [|[|j]]; [exists []; reflexivity.. | lia].
  - reflexivity.
Defined.

(** * A reading that cannot be printed *)

Lemma extract_values_readings (R : float) (a b c d : str)
      (va vb vc vd : float) :
  QueryValue a = Ok va -> QueryValue b = Ok vb ->
  QueryValue c = Ok vc -> QueryValue d = Ok vd ->
  float_is_zero (toMillivolts vd) = false ->
  extract_values R a b c d =
  Ok (toMillivolts va, toMillivolts vb, toMillivolts vc, toMillivolts vd,
      float_mul (SFdiv prec emax (toMillivolts vb) (toMillivolts vd)) R).
Proof.
  intros Ha Hb Hc Hd Hz.
  unfold extract_values, ComputeResistance, float_truediv.
  rewrite Ha, Hb, Hc, Hd. cbn [rbind]. now rewrite Hz.
Qed.

(** X19: the reading is printed outside the inner [try] block.  When the
    four replies parse, the mean of channel 2 is not zero and the printing
    of the reading raises, as a standard output that cannot encode the ohm
    sign does, the iteration is not skipped: the exception ends the loop,
    even if it is a [ValueError], and no pause follows. *)
Theorem refused_reading_ends_polling
        (R : float) (w : world) (r1 r2 r3 r4 : str)
        (va vb vc vd : float) (e : exn) :
  script w (clock w) = Reply r1 ->
  script w (1 + clock w) = Reply r2 ->
  script w (2 + clock w) = Reply r3 ->
  script w (3 + clock w) = Reply r4 ->
  QueryValue (strip r1) = Ok va -> QueryValue (strip r2) = Ok vb ->
  QueryValue (strip r3) = Ok vc -> QueryValue (strip r4) = Ok vd ->
  float_is_zero (toMillivolts vd) = false ->
  script w (4 + clock w) = Fails e ->
  forall fuel,
    while_true (S fuel) (measurement_body R) w =
    (Raises e,
     tick
       (EvPrint
          (MsgReading (toMillivolts va) (toMillivolts vb) (toMillivolts vc)
             (toMillivolts vd)
             (float_mul (SFdiv prec emax (toMillivolts vb) (toMillivolts vd))
                R)))
       (after_queries w)).
Proof.
  intros H1 H2 H3 H4 Ha Hb Hc Hd Hz H5 fuel. apply while_true_exit.
  rewrite (measurement_body_replies R w H1 H2 H3 H4).
  apply report_values_print_fails.
  - now apply extract_values_readings.
  - exact H5.
Qed.

Lemma refused_reading_ends_polling_witness :
    while_true 3 (measurement_body R_ref)
      (scripted (good_replies ++ [Fails ValueError]) ok) =
    (Raises ValueError,
     tick
       (EvPrint
          (MsgReading (toMillivolts (float_literal "0.5"))
             (toMillivolts (float_literal "0.5"))
             (toMillivolts (float_literal "0.25"))
             (toMillivolts (float_literal "0.25"))
             (float_mul
                (SFdiv prec emax (toMillivolts (float_literal "0.5"))
                   (toMillivolts (float_literal "0.25"))) R_ref)))
       (after_queries (scripted (good_replies ++ [Fails ValueError]) ok))).
Proof.
  apply (@refused_reading_ends_polling R_ref
           (scripted (good_replies ++ [Fails ValueError]) ok)
           (lit "C1,0.5V") (lit "C1,0.5V") (lit "C2,0.25V") (lit "C2,0.25V"));
    vm_compute; reflexivity.
Defined.
